(** * MaatikShemua frontend hooks: selection, progress socket, auto-save

    Shallow embedding of three React hooks of the frontend
    ([src/frontend/src/hooks/useRangeSelection.ts], [useWebSocket.ts] and
    [useAutoSave.ts]) and the properties their design document states
    about them.

    Conventions of the embedding:
    - React state cells ([useState]) and refs ([useRef]) are fields of a
      state record; an event handler is a function on that record.
    - A JavaScript [Set] is a [gset], [localStorage] a [gmap] keyed by
      strings.
    - Handlers that can throw, or that call out to the environment
      (timers, sockets, the remote endpoint), run in a small monad that
      threads the state, logs the calls made and carries the completion
      (normal or abrupt) of the handler.
    - JavaScript numbers that count or measure milliseconds are integers
      of [Z]. *)

From stdpp Require Import base gmap sets list strings pretty.
From Stdlib Require Import ZArith QArith_base Lia.

Local Open Scope Z_scope.
#[local] Set Warnings "-clear-no-such-hyp".

(** ** JavaScript completions, environment calls and JSON texts *)

Module Js.

(** A thrown value: an [Error] instance with its [message], or anything
    else ([err instanceof Error] tells them apart). *)
Inductive thrown : Type :=
| ErrorObject (name message : string)
| OtherValue (repr : string).

Inductive completion (A : Type) : Type :=
| Normal (a : A)
| Abrupt (e : thrown).
Arguments Normal {A} a.
Arguments Abrupt {A} e.

(** State [S], log of environment calls [E], completion of type [A]. *)
Definition M (S E A : Type) : Type := S → S * list E * completion A.

Definition ret {S E A} (a : A) : M S E A := λ s, (s, [], Normal a).

Definition bind {S E A B} (m : M S E A) (k : A → M S E B) : M S E B :=
  λ s, match m s with
       | (s1, w1, Normal a) =>
           match k a s1 with (s2, w2, c) => (s2, w1 ++ w2, c) end
       | (s1, w1, Abrupt e) => (s1, w1, Abrupt e)
       end.

Definition throw {S E A} (e : thrown) : M S E A := λ s, (s, [], Abrupt e).
Definition modify {S E} (f : S → S) : M S E unit := λ s, (f s, [], Normal ()).
Definition gets {S E A} (f : S → A) : M S E A := λ s, (s, [], Normal (f s)).
Definition emit {S E} (e : E) : M S E unit := λ s, (s, [e], Normal ()).
Definition when {S E} (b : bool) (m : M S E unit) : M S E unit :=
  if b then m else ret ().

(** [await p] for a promise that settles with completion [c]. *)
Definition await {S E A} (c : completion A) : M S E A :=
  match c with
  | Normal a => ret a
  | Abrupt e => throw e
  end.

(** [try { body } catch (err) { handler err }] *)
Definition try_catch {S E A} (body : M S E A) (handler : thrown → M S E A)
  : M S E A :=
  λ s, match body s with
       | (s1, w1, Normal a) => (s1, w1, Normal a)
       | (s1, w1, Abrupt e) =>
           match handler e s1 with (s2, w2, c) => (s2, w1 ++ w2, c) end
       end.

(** [try { body } finally { final }]: [final] always runs; the completion
    is the body's unless [final] itself completes abruptly. *)
Definition try_finally {S E A} (body : M S E A) (final : M S E unit)
  : M S E A :=
  λ s, match body s with
       | (s1, w1, c) =>
           match final s1 with
           | (s2, w2, Normal _) => (s2, w1 ++ w2, c)
           | (s2, w2, Abrupt e) => (s2, w1 ++ w2, Abrupt e)
           end
       end.

Definition state_of {S E A} (r : S * list E * completion A) : S := r.1.1.
Definition calls_of {S E A} (r : S * list E * completion A) : list E := r.1.2.
Definition completion_of {S E A} (r : S * list E * completion A)
  : completion A := r.2.

(** [a ?? b] *)
Definition nullish {A} (a : option A) (b : A) : A :=
  match a with
  | Some x => x
  | None => b
  end.

(** A string handed to [JSON.parse] is represented by what the parser
    makes of it: either it is the JSON text of a value of the expected
    shape ([JSON.stringify] produces such texts), or it is not JSON at
    all and [JSON.parse] throws a [SyntaxError]. A text that is JSON
    of another shape ([null], a number, ...) is neither, and is not
    represented. *)
Inductive json_text (A : Type) : Type :=
| Encodes (a : A)
| Malformed (raw : string).
Arguments Encodes {A} a.
Arguments Malformed {A} raw.

Definition JSON_stringify {A} (a : A) : json_text A := Encodes a.

Definition JSON_parse {S E A} (t : json_text A) : M S E A :=
  match t with
  | Encodes a => ret a
  | Malformed raw => throw (ErrorObject "SyntaxError" raw)
  end.

(** Truthiness of a string: only the empty string is falsy. The JSON text
    of a value is never empty. *)
Definition truthy {A} (t : json_text A) : bool :=
  match t with
  | Encodes _ => true
  | Malformed raw => negb (String.eqb raw "")
  end.

End Js.

Notation "x ←ʲ m ; k" := (Js.bind m (λ x, k))
  (at level 20, m at level 100, k at level 200, only parsing).
Notation "m ;;ʲ k" := (Js.bind m (λ _, k))
  (at level 100, k at level 200, right associativity, only parsing).

(** ** types/index.ts *)

Module Types.

Record TranscriptionLine : Type := {
  id : Z;
  line_number : Z;
  display_order : option Z;
  text : option string;
  confidence : option Q;
  notes : option string;
}.

Record TaskProgress : Type := {
  current : option Z;
  total : option Z;
  page_id : option Z;
  progress_status : option string;
  message : option string;
  phase : option string;
}.

(** [status] is declared as one of four literals, but a snapshot is cast
    from parsed JSON without validation, so it is any string at run time. *)
Record Task : Type := {
  task_id : string;
  type : string;
  status : string;
  progress : option TaskProgress;
  result : option (list (string * string));
  error : option string;
  created_at : string;
  updated_at : string;
}.

End Types.

(** ** useRangeSelection.ts *)

Module RangeSelection.

(** The fields of [React.MouseEvent] the hook reads. *)
Record MouseEvent : Type := {
  metaKey : bool;
  ctrlKey : bool;
  shiftKey : bool;
}.

Section WithIds.
Context `{Countable TId}.

Record RangeSelectionState : Type := {
  selectedIds : gset TId;
  anchorId : option TId;
}.

(** [Array.prototype.indexOf]: index of the first occurrence, -1 when
    there is none. *)
Fixpoint indexOf_from (l : list TId) (x : TId) (i : Z) : Z :=
  match l with
  | [] => -1
  | y :: l' => if decide (y = x) then i else indexOf_from l' x (i + 1)
  end.

Definition indexOf (l : list TId) (x : TId) : Z := indexOf_from l x 0.

(** [nextSelected.add(orderedIds[i])]. The indices come from [indexOf],
    so [orderedIds[i]] is always defined; an index outside the array adds
    nothing here. *)
Definition add_index (orderedIds : list TId) (acc : gset TId) (i : Z)
  : gset TId :=
  match orderedIds !! Z.to_nat i with
  | Some x => acc ∪ {[x]}
  | None => acc
  end.

(** [for (let i = start; i <= end; i++) nextSelected.add(orderedIds[i])] *)
Definition add_range (orderedIds : list TId) (start stop : Z)
    (acc : gset TId) : gset TId :=
  foldl (add_index orderedIds) acc (seqZ start (stop - start + 1)).

Definition empty_selection : RangeSelectionState :=
  {| selectedIds := ∅; anchorId := None |}.

(** The updater [onItemClick] passes to [setState]. *)
Definition onItemClick (orderedIds : list TId) (id : TId)
    (event : MouseEvent) (prev : RangeSelectionState)
  : RangeSelectionState :=
  let isMeta := metaKey event || ctrlKey event in
  let isShift := shiftKey event in
  let nextSelected := selectedIds prev in
  let nextAnchor := anchorId prev in
  let without_range :=
    if isMeta then
      {| selectedIds :=
           if decide (id ∈ nextSelected)
           then nextSelected ∖ {[id]}
           else nextSelected ∪ {[id]};
         anchorId := nextAnchor |}
    else
      {| selectedIds := {[id]}; anchorId := Some id |} in
  match anchorId prev with
  | Some anchor =>
      if isShift then
        let anchorIndex := indexOf orderedIds anchor in
        let targetIndex := indexOf orderedIds id in
        if (anchorIndex =? -1) || (targetIndex =? -1) then
          {| selectedIds := {[id]}; anchorId := Some id |}
        else
          let '(start, stop) :=
            if anchorIndex <? targetIndex
            then (anchorIndex, targetIndex)
            else (targetIndex, anchorIndex) in
          {| selectedIds := add_range orderedIds start stop ∅;
             anchorId := Some anchor |}
      else without_range
  | None => without_range
  end.

Definition isSelected (state : RangeSelectionState) (id : TId) : bool :=
  bool_decide (id ∈ selectedIds state).

Definition clear (_ : RangeSelectionState) : RangeSelectionState :=
  empty_selection.

(** Inclusive slice [l[lo..hi]] of the ordered sequence. *)
Definition slice (l : list TId) (lo hi : Z) : list TId :=
  take (Z.to_nat (hi - lo + 1)) (drop (Z.to_nat lo) l).

End WithIds.

Arguments RangeSelectionState TId {_ _}.

(** The gestures of the design document's [activate(id, modifiers)]. *)
Definition plain_click : MouseEvent :=
  {| metaKey := false; ctrlKey := false; shiftKey := false |}.
Definition toggle_click : MouseEvent :=
  {| metaKey := false; ctrlKey := true; shiftKey := false |}.
Definition range_click : MouseEvent :=
  {| metaKey := false; ctrlKey := false; shiftKey := true |}.
Definition toggle_range_click : MouseEvent :=
  {| metaKey := false; ctrlKey := true; shiftKey := true |}.

End RangeSelection.

(** ** useWebSocket.ts: the push transport of a task's progress *)

Module TaskSocket.
Import Js Types.

(** [UseWebSocketOptions]. The callbacks are the caller's; the embedding
    records whether each is supplied and logs the calls made to it. *)
Record UseWebSocketOptions : Type := {
  onMessage : bool;
  onError : bool;
  reconnectAttempts : option Z;
  reconnectInterval : option Z;
}.

Definition default_options : UseWebSocketOptions :=
  {| onMessage := false; onError := false;
     reconnectAttempts := None; reconnectInterval := None |}.

Definition maxAttempts (options : UseWebSocketOptions) : Z :=
  nullish (reconnectAttempts options) 5.

Definition interval (options : UseWebSocketOptions) : Z :=
  nullish (reconnectInterval options) 2000.

Inductive ConnStatus : Type := connecting | open | closed.

(** The hook's cells: the [status] and [taskData] state, and the refs
    [wsRef] (sockets are numbered in order of creation), [attemptsRef]
    and [taskStatusRef]. [sockets] counts the sockets created so far. *)
Record SocketState : Type := {
  status : ConnStatus;
  taskData : option Task;
  wsRef : option nat;
  attemptsRef : Z;
  taskStatusRef : option string;
  sockets : nat;
}.

Definition socket_initial : SocketState :=
  {| status := closed; taskData := None; wsRef := None;
     attemptsRef := 0; taskStatusRef := None; sockets := 0 |}.

(** Calls the handlers make to their environment. *)
Inductive socket_call : Type :=
| NewWebSocket (ws : nat) (taskId : string)
| WsClose (ws : nat)
| CallOnMessage (data : Task)
| CallOnError
| SetTimeoutConnect (delay : Z).

Definition setStatus (c : ConnStatus) (s : SocketState) : SocketState :=
  {| status := c; taskData := taskData s; wsRef := wsRef s;
     attemptsRef := attemptsRef s; taskStatusRef := taskStatusRef s;
     sockets := sockets s |}.

Definition setTaskData (d : Task) (s : SocketState) : SocketState :=
  {| status := status s; taskData := Some d; wsRef := wsRef s;
     attemptsRef := attemptsRef s; taskStatusRef := taskStatusRef s;
     sockets := sockets s |}.

Definition set_attemptsRef (n : Z) (s : SocketState) : SocketState :=
  {| status := status s; taskData := taskData s; wsRef := wsRef s;
     attemptsRef := n; taskStatusRef := taskStatusRef s;
     sockets := sockets s |}.

Definition set_taskStatusRef (v : string) (s : SocketState) : SocketState :=
  {| status := status s; taskData := taskData s; wsRef := wsRef s;
     attemptsRef := attemptsRef s; taskStatusRef := Some v;
     sockets := sockets s |}.

Definition set_wsRef (ws : nat) (s : SocketState) : SocketState :=
  {| status := status s; taskData := taskData s; wsRef := Some ws;
     attemptsRef := attemptsRef s; taskStatusRef := taskStatusRef s;
     sockets := S (sockets s) |}.

(** [v === 'completed' || v === 'failed'] *)
Definition is_terminal (v : string) : bool :=
  String.eqb v "completed" || String.eqb v "failed".

(** [taskStatusRef.current !== 'completed' &&
     taskStatusRef.current !== 'failed'], the ref being a string or null. *)
Definition ref_not_terminal (r : option string) : bool :=
  match r with
  | Some v => negb (String.eqb v "completed") && negb (String.eqb v "failed")
  | None => true
  end.

Section Hook.
Variable taskId : option string.
Variable options : UseWebSocketOptions.

Definition Handler : Type := M SocketState socket_call unit.

(** [connect]: returns at once when [taskId] is falsy (null or empty). *)
Definition connect : Handler :=
  match taskId with
  | None => ret ()
  | Some tid =>
      if String.eqb tid "" then ret ()
      else
        ws ←ʲ gets sockets;
        emit (NewWebSocket ws tid) ;;ʲ
        modify (set_wsRef ws) ;;ʲ
        modify (setStatus connecting)
  end.

Definition onopen : Handler :=
  modify (setStatus open) ;;ʲ
  modify (set_attemptsRef 0).

(** [ws.onmessage] of socket [ws], on an event whose [data] is [raw]. *)
Definition onmessage (ws : nat) (raw : json_text Task) : Handler :=
  data ←ʲ JSON_parse raw;
  modify (setTaskData data) ;;ʲ
  modify (set_taskStatusRef (Types.status data)) ;;ʲ
  when (onMessage options) (emit (CallOnMessage data)) ;;ʲ
  when (is_terminal (Types.status data)) (emit (WsClose ws)).

Definition onerror : Handler :=
  when (onError options) (emit CallOnError).

Definition onclose : Handler :=
  modify (setStatus closed) ;;ʲ
  last ←ʲ gets taskStatusRef;
  when (ref_not_terminal last)
    (attempts ←ʲ gets attemptsRef;
     when (attempts <? maxAttempts options)
       (let delay := interval options * 2 ^ attempts in
        modify (set_attemptsRef (attempts + 1)) ;;ʲ
        emit (SetTimeoutConnect delay))).

(** The effect's cleanup: [wsRef.current?.close()]. *)
Definition cleanup : Handler :=
  cur ←ʲ gets wsRef;
  match cur with
  | Some ws => emit (WsClose ws)
  | None => ret ()
  end.

(** What the event loop delivers to the hook. [Connects] is the effect
    or a reconnect timer running [connect]; [Cleanup] is the effect's
    cleanup, at unmount or before the effect runs again. *)
Inductive socket_event : Type :=
| Connects
| Opened
| MessageOn (ws : nat) (raw : json_text Task)
| Errored
| Closed
| Cleanup.

Definition dispatch (ev : socket_event) : Handler :=
  match ev with
  | Connects => connect
  | Opened => onopen
  | MessageOn ws raw => onmessage ws raw
  | Errored => onerror
  | Closed => onclose
  | Cleanup => cleanup
  end.

(** The event loop runs the handlers one after the other; an exception
    that escapes a handler ends that handler only and is reported as
    uncaught. *)
Record Run : Type := {
  final : SocketState;
  calls : list socket_call;
  uncaught : list thrown;
}.

Fixpoint run_events (evs : list socket_event) (s : SocketState) : Run :=
  match evs with
  | [] => {| final := s; calls := []; uncaught := [] |}
  | ev :: evs' =>
      let '(s1, w1, c) := dispatch ev s in
      let r := run_events evs' s1 in
      {| final := final r;
         calls := w1 ++ calls r;
         uncaught := match c with
                     | Normal _ => uncaught r
                     | Abrupt e => e :: uncaught r
                     end |}
  end.

(** The reconnect delays scheduled in a log of calls. *)
Definition scheduled (w : list socket_call) : list Z :=
  omap (λ c, match c with SetTimeoutConnect d => Some d | _ => None end) w.

(** Events that neither open the connection nor deliver a terminal or
    malformed snapshot. *)
Definition keeps_retrying (ev : socket_event) : bool :=
  match ev with
  | Opened => false
  | MessageOn _ (Encodes d) => negb (is_terminal (Types.status d))
  | MessageOn _ (Malformed _) => false
  | _ => true
  end.

Definition is_message (ev : socket_event) : bool :=
  match ev with
  | MessageOn _ _ => true
  | _ => false
  end.

Definition is_close (ev : socket_event) : bool :=
  match ev with
  | Closed => true
  | _ => false
  end.

(** Number of close events in a sequence of events. *)
Definition closes (evs : list socket_event) : Z :=
  Z.of_nat (length (List.filter is_close evs)).

(** The delays [interval * 2^i] for [i] from [from] up to [upto - 1]. *)
Definition backoff_delays (from upto : Z) : list Z :=
  (λ i, interval options * 2 ^ i) <$> seqZ from (upto - from).

End Hook.

(** A snapshot of task [t1] with the given status, for the examples. *)
Definition snapshot (v : string) : Task :=
  {| task_id := "t1"; type := "inference"; Types.status := v;
     progress := None; result := None; Types.error := None;
     created_at := "2024-01-01T00:00:00Z";
     updated_at := "2024-01-01T00:00:05Z" |}.

End TaskSocket.

(** ** useAutoSave.ts: local backup and debounced remote write *)

Module AutoSave.
Import Js Types.

Definition Lines : Type := list TranscriptionLine.

(** What [saveToLocalStorage] stores: the lines and the time of capture
    (the clock's milliseconds stand for the ISO string of the date). *)
Record Backup : Type := {
  lines : Lines;
  timestamp : Z;
}.

(** [UseAutoSaveOptions]; [onSave] is the caller's remote write, whose
    calls are logged and whose promise the environment settles. *)
Record UseAutoSaveOptions : Type := {
  pageId : Z;
  debounceMs : option Z;
}.

Definition wait (options : UseAutoSaveOptions) : Z :=
  nullish (debounceMs options) 3000.

Definition backupKey (options : UseAutoSaveOptions) : string :=
  "maatik_backup_" +:+ pretty (pageId options).

(** Who awaits the promise of a [saveToServer] call: nobody (the call made
    by the debounced function) or [forceSave]. *)
Inductive origin : Type := FromDebounce | FromForceSave.

(** The state cells of the hook, the browser's [localStorage] and clock,
    the debounced function ([pending] holds lodash's [lastArgs] and
    [lastCallTime] while a trailing call is due), and the [onSave]
    promises not settled yet ([issued] numbers the calls). *)
Record State : Type := {
  clock : Z;
  localStorage : gmap string (json_text Backup);
  lastSaved : option Z;
  isSaving : bool;
  hasUnsavedChanges : bool;
  error : option string;
  pending : option (Lines * Z);
  inflight : list (nat * origin);
  issued : nat;
}.

Definition initial : State :=
  {| clock := 0; localStorage := ∅; lastSaved := None; isSaving := false;
     hasUnsavedChanges := false; error := None; pending := None;
     inflight := []; issued := 0 |}.

(** Calls the hook makes to its environment. *)
Inductive call : Type :=
| SetItem (key : string) (value : json_text Backup)
| RemoveItem (key : string)
| OnSave (req : nat) (payload : Lines)
| DebounceArm (payload : Lines)
| DebounceCancel
| ConsoleError (e : thrown)
| ForceSaveSettled (req : nat) (c : completion unit).

Definition set_clock (t : Z) (s : State) : State :=
  {| clock := t; localStorage := localStorage s; lastSaved := lastSaved s;
     isSaving := isSaving s; hasUnsavedChanges := hasUnsavedChanges s;
     error := error s; pending := pending s; inflight := inflight s;
     issued := issued s |}.

Definition set_localStorage (m : gmap string (json_text Backup)) (s : State)
  : State :=
  {| clock := clock s; localStorage := m; lastSaved := lastSaved s;
     isSaving := isSaving s; hasUnsavedChanges := hasUnsavedChanges s;
     error := error s; pending := pending s; inflight := inflight s;
     issued := issued s |}.

Definition setLastSaved (d : option Z) (s : State) : State :=
  {| clock := clock s; localStorage := localStorage s; lastSaved := d;
     isSaving := isSaving s; hasUnsavedChanges := hasUnsavedChanges s;
     error := error s; pending := pending s; inflight := inflight s;
     issued := issued s |}.

Definition setIsSaving (b : bool) (s : State) : State :=
  {| clock := clock s; localStorage := localStorage s;
     lastSaved := lastSaved s; isSaving := b;
     hasUnsavedChanges := hasUnsavedChanges s; error := error s;
     pending := pending s; inflight := inflight s; issued := issued s |}.

Definition setHasUnsavedChanges (b : bool) (s : State) : State :=
  {| clock := clock s; localStorage := localStorage s;
     lastSaved := lastSaved s; isSaving := isSaving s;
     hasUnsavedChanges := b; error := error s; pending := pending s;
     inflight := inflight s; issued := issued s |}.

Definition setError (e : option string) (s : State) : State :=
  {| clock := clock s; localStorage := localStorage s;
     lastSaved := lastSaved s; isSaving := isSaving s;
     hasUnsavedChanges := hasUnsavedChanges s; error := e;
     pending := pending s; inflight := inflight s; issued := issued s |}.

Definition set_pending (p : option (Lines * Z)) (s : State) : State :=
  {| clock := clock s; localStorage := localStorage s;
     lastSaved := lastSaved s; isSaving := isSaving s;
     hasUnsavedChanges := hasUnsavedChanges s; error := error s;
     pending := p; inflight := inflight s; issued := issued s |}.

Definition set_inflight (l : list (nat * origin)) (n : nat) (s : State)
  : State :=
  {| clock := clock s; localStorage := localStorage s;
     lastSaved := lastSaved s; isSaving := isSaving s;
     hasUnsavedChanges := hasUnsavedChanges s; error := error s;
     pending := pending s; inflight := l; issued := n |}.

(** [err instanceof Error ? err.message : 'Save failed'] *)
Definition failure_message (err : thrown) : string :=
  match err with
  | ErrorObject _ m => m
  | OtherValue _ => "Save failed"
  end.

(** Lookup and removal in the list of unsettled promises. *)
Fixpoint origin_of (req : nat) (l : list (nat * origin)) : option origin :=
  match l with
  | [] => None
  | (r, o) :: l' => if Nat.eqb r req then Some o else origin_of req l'
  end.

Fixpoint forget (req : nat) (l : list (nat * origin)) : list (nat * origin) :=
  match l with
  | [] => []
  | (r, o) :: l' =>
      if Nat.eqb r req then forget req l' else (r, o) :: forget req l'
  end.

Section Hook.
Variable options : UseAutoSaveOptions.

Definition Action : Type := M State call unit.

Definition localStorage_setItem (key : string) (v : json_text Backup)
  : Action :=
  m ←ʲ gets localStorage;
  modify (set_localStorage (<[key := v]> m)) ;;ʲ
  emit (SetItem key v).

Definition localStorage_removeItem (key : string) : Action :=
  m ←ʲ gets localStorage;
  modify (set_localStorage (delete key m)) ;;ʲ
  emit (RemoveItem key).

Definition saveToLocalStorage (payload : Lines) : Action :=
  now ←ʲ gets clock;
  localStorage_setItem (backupKey options)
    (JSON_stringify {| lines := payload; timestamp := now |}) ;;ʲ
  modify (setHasUnsavedChanges true).

(** [saveToServer] up to its [await]: the cells are set and [onSave] is
    called; its promise is number [issued]. *)
Definition saveToServer_call (who : origin) (payload : Lines) : Action :=
  modify (setIsSaving true) ;;ʲ
  modify (setError None) ;;ʲ
  req ←ʲ gets issued;
  l ←ʲ gets inflight;
  modify (set_inflight (l ++ [(req, who)]) (S req)) ;;ʲ
  emit (OnSave req payload).

(** [saveToServer] from its [await] on, once the promise of [onSave] has
    settled with [outcome]. *)
Definition saveToServer_resume (outcome : completion unit) : Action :=
  try_finally
    (try_catch
       (await outcome ;;ʲ
        localStorage_removeItem (backupKey options) ;;ʲ
        now ←ʲ gets clock;
        modify (setLastSaved (Some now)) ;;ʲ
        modify (setHasUnsavedChanges false))
       (λ err,
          modify (setError (Some (failure_message err))) ;;ʲ
          emit (ConsoleError err)))
    (modify (setIsSaving false)).

(** The debounced function (lodash [debounce], trailing edge): a call
    records its arguments and the time; [cancel] forgets them. *)
Definition debouncedSave (payload : Lines) : Action :=
  now ←ʲ gets clock;
  modify (set_pending (Some (payload, now))) ;;ʲ
  emit (DebounceArm payload).

Definition debouncedSave_cancel : Action :=
  modify (set_pending None) ;;ʲ
  emit DebounceCancel.

(** The timer of the debounced function: once [wait] milliseconds have
    passed since the last call, it calls [saveToServerRef.current] with
    the last arguments. *)
Definition debounce_timer : Action :=
  p ←ʲ gets pending;
  now ←ʲ gets clock;
  match p with
  | Some (lastArgs, lastCallTime) =>
      if lastCallTime + wait options <=? now then
        modify (set_pending None) ;;ʲ
        saveToServer_call FromDebounce lastArgs
      else ret ()
  | None => ret ()
  end.

Definition save (payload : Lines) : Action :=
  saveToLocalStorage payload ;;ʲ
  debouncedSave payload.

(** [forceSave] up to the [await] inside [saveToServer]. *)
Definition forceSave (payload : Lines) : Action :=
  debouncedSave_cancel ;;ʲ
  saveToServer_call FromForceSave payload.

(** [forceSave] from that [await] on: its own promise settles as the
    awaited [saveToServer] completes. *)
Definition forceSave_resume (req : nat) (outcome : completion unit)
  : Action :=
  λ s, match saveToServer_resume outcome s with
       | (s1, w1, c) => (s1, w1 ++ [ForceSaveSettled req c], Normal ())
       end.

(** [getBackup]: null when nothing is stored under the key or the stored
    string is empty; otherwise what [JSON.parse] returns, or null when
    it throws (the [catch] branch). *)
Definition getBackup (s : State) : option Backup :=
  match localStorage s !! backupKey options with
  | Some backup =>
      if truthy backup then
        match backup with
        | Encodes b => Some b
        | Malformed _ => None
        end
      else None
  | None => None
  end.

Definition clearBackup : Action :=
  localStorage_removeItem (backupKey options).

(** The promise of [onSave] call [req] settles. *)
Definition settle (req : nat) (outcome : completion unit) : Action :=
  l ←ʲ gets inflight;
  match origin_of req l with
  | Some who =>
      n ←ʲ gets issued;
      modify (set_inflight (forget req l) n) ;;ʲ
      match who with
      | FromDebounce => saveToServer_resume outcome
      | FromForceSave => forceSave_resume req outcome
      end
  | None => ret ()
  end.

(** What happens to the hook: calls of its operations by the page, time
    passing (with the debounce timer firing when due), promises of the
    remote write settling, and the unmount cleanup. *)
Inductive event : Type :=
| Save (payload : Lines)
| ForceSave (payload : Lines)
| Elapse (dt : N)
| Settle (req : nat) (outcome : completion unit)
| ClearBackup
| Unmount.

Definition handle (ev : event) : Action :=
  match ev with
  | Save payload => save payload
  | ForceSave payload => forceSave payload
  | Elapse dt =>
      now ←ʲ gets clock;
      modify (set_clock (now + Z.of_N dt)) ;;ʲ
      debounce_timer
  | Settle req outcome => settle req outcome
  | ClearBackup => clearBackup
  | Unmount => debouncedSave_cancel
  end.

Fixpoint run (evs : list event) (s : State) : State * list call :=
  match evs with
  | [] => (s, [])
  | ev :: evs' =>
      let '(s1, w1, _) := handle ev s in
      let '(s2, w2) := run evs' s1 in
      (s2, w1 ++ w2)
  end.

(** The payloads of the remote writes, and of the local backup writes
    under this hook's key, in a log of calls. *)
Definition remote_writes (w : list call) : list Lines :=
  omap (λ c, match c with OnSave _ p => Some p | _ => None end) w.

Definition local_writes (w : list call) : list Lines :=
  omap (λ c, match c with
             | SetItem k (Encodes b) =>
                 if String.eqb k (backupKey options) then Some (lines b)
                 else None
             | _ => None
             end) w.

(** A burst of calls of [save]: each call comes [gap] milliseconds after
    the one before. *)
Fixpoint burst (rest : list (N * Lines)) : list event :=
  match rest with
  | [] => []
  | (gap, payload) :: rest' => Elapse gap :: Save payload :: burst rest'
  end.

End Hook.

(** The promises not settled yet are numbered below [issued]. *)
Definition fresh_ids (s : State) : bool :=
  forallb (λ p : nat * origin, Nat.ltb p.1 (issued s)) (inflight s).

(** A line of text and a page, for the examples. *)
Definition line (n : Z) (t : string) : TranscriptionLine :=
  {| id := n; line_number := n; display_order := None; text := Some t;
     confidence := None; notes := None |}.

Definition page7 : UseAutoSaveOptions :=
  {| pageId := 7; debounceMs := None |}.

End AutoSave.

(** ** Sequences of clicks on a list (IndexPage's document and page lists) *)

Module RangeSelectionReplay.
Import RangeSelection.

Section WithIds.
Context `{Countable TId}.

(** The states [setState] goes through when the rows of a list are
    clicked one after the other, the list showing [orderedIds]. *)
Definition replay (orderedIds : list TId) (clicks : list (TId * MouseEvent))
    (st : RangeSelectionState TId) : RangeSelectionState TId :=
  foldl (λ st c, onItemClick orderedIds c.1 c.2 st) st clicks.

(** The selection and the anchor name rows of the list. *)
Definition within (orderedIds : list TId) (st : RangeSelectionState TId)
  : Prop :=
  (∀ x, x ∈ selectedIds st → x ∈ orderedIds)
  ∧ (∀ a, anchorId st = Some a → a ∈ orderedIds).

End WithIds.

End RangeSelectionReplay.

(** ** useWebSocket.ts: what a sequence of events delivers *)

Module TaskSocketTrace.
Import Js Types TaskSocket.

(** The snapshots of the well-formed messages of a sequence of events. *)
Definition snapshots (evs : list socket_event) : list Task :=
  omap (λ ev, match ev with
              | MessageOn _ (Encodes d) => Some d
              | _ => None
              end) evs.

(** The snapshots handed to the caller's [onMessage]. *)
Definition delivered (w : list socket_call) : list Task :=
  omap (λ c, match c with CallOnMessage d => Some d | _ => None end) w.


Definition is_open (ev : socket_event) : bool :=
  match ev with
  | Opened => true
  | _ => false
  end.

Definition is_error (ev : socket_event) : bool :=
  match ev with
  | Errored => true
  | _ => false
  end.

Definition is_onError_call (c : socket_call) : bool :=
  match c with
  | CallOnError => true
  | _ => false
  end.

(** [!taskId] *)
Definition falsy (taskId : option string) : bool :=
  match taskId with
  | Some tid => String.eqb tid ""
  | None => true
  end.

End TaskSocketTrace.

(** ** useWebSocket.ts: the polling hook [useTaskPolling] *)

Module TaskPolling.
Import Js Types.

(** The hook's state cells ([polledTask] is its [taskData]), the
    [cancelled] flag of the effect's closure, and what the effect has
    outstanding in the event loop: the delays of the
    [setTimeout(poll, _)] timers not fired yet and the number of
    [api.getTaskStatus] promises not settled yet. *)
Record PollState : Type := {
  polledTask : option Task;
  isPolling : bool;
  cancelled : bool;
  timers : list Z;
  requests : nat;
}.

Definition poll_initial : PollState :=
  {| polledTask := None; isPolling := false; cancelled := false;
     timers := []; requests := 0 |}.

Inductive poll_call : Type :=
| GetTaskStatus (taskId : string)
| SetTimeoutPoll (delay : Z)
| PollConsoleError (e : thrown).

Definition setPolledTask (d : option Task) (s : PollState) : PollState :=
  {| polledTask := d; isPolling := isPolling s; cancelled := cancelled s;
     timers := timers s; requests := requests s |}.

Definition setIsPolling (b : bool) (s : PollState) : PollState :=
  {| polledTask := polledTask s; isPolling := b; cancelled := cancelled s;
     timers := timers s; requests := requests s |}.

Definition set_cancelled (b : bool) (s : PollState) : PollState :=
  {| polledTask := polledTask s; isPolling := isPolling s; cancelled := b;
     timers := timers s; requests := requests s |}.

Definition set_timers (l : list Z) (s : PollState) : PollState :=
  {| polledTask := polledTask s; isPolling := isPolling s;
     cancelled := cancelled s; timers := l; requests := requests s |}.

Definition set_requests (n : nat) (s : PollState) : PollState :=
  {| polledTask := polledTask s; isPolling := isPolling s;
     cancelled := cancelled s; timers := timers s; requests := n |}.

Definition PollAction : Type := M PollState poll_call unit.

(** [setTimeout(poll, delay)] *)
Definition setTimeout_poll (delay : Z) : PollAction :=
  l ←ʲ gets timers;
  modify (set_timers (l ++ [delay])) ;;ʲ
  emit (SetTimeoutPoll delay).

(** [poll] up to its [await]: nothing when cancelled, else the request. *)
Definition poll (tid : string) : PollAction :=
  c ←ʲ gets cancelled;
  if c then ret ()
  else
    n ←ʲ gets requests;
    modify (set_requests (S n)) ;;ʲ
    emit (GetTaskStatus tid).

(** [poll] from its [await] on, the request having settled. *)
Definition poll_resume (outcome : completion Task) : PollAction :=
  try_catch
    (data ←ʲ await outcome;
     c ←ʲ gets cancelled;
     if c then ret ()
     else
       modify (setPolledTask (Some data)) ;;ʲ
       if negb (String.eqb (status data) "completed")
          && negb (String.eqb (status data) "failed")
       then setTimeout_poll 2000
       else modify (setIsPolling false))
    (λ error,
       emit (PollConsoleError error) ;;ʲ
       c ←ʲ gets cancelled;
       when (negb c) (setTimeout_poll 5000)).

Section Effect.
Variable taskId : option string.

(** The body of the effect. *)
Definition effect : PollAction :=
  match taskId with
  | None => modify (setPolledTask None)
  | Some tid =>
      if String.eqb tid "" then modify (setPolledTask None)
      else
        modify (setIsPolling true) ;;ʲ
        modify (set_cancelled false) ;;ʲ
        poll tid
  end.

(** The cleanup the effect returns; it returns none for a falsy id. *)
Definition poll_cleanup : PollAction :=
  match taskId with
  | None => ret ()
  | Some tid =>
      if String.eqb tid "" then ret ()
      else
        modify (set_cancelled true) ;;ʲ
        modify (setIsPolling false)
  end.

(** What the event loop runs: the effect, the oldest timer (which calls
    [poll]), the continuation of the oldest request, the cleanup. A timer
    or a response that is not outstanding cannot occur. *)
Inductive poll_event : Type :=
| Mounts
| TimerFires
| Responds (outcome : completion Task)
| CleansUp.

Definition poll_dispatch (ev : poll_event) : PollAction :=
  match ev with
  | Mounts => effect
  | TimerFires =>
      l ←ʲ gets timers;
      match l, taskId with
      | _ :: rest, Some tid => modify (set_timers rest) ;;ʲ poll tid
      | _, _ => ret ()
      end
  | Responds outcome =>
      n ←ʲ gets requests;
      match n with
      | S n' => modify (set_requests n') ;;ʲ poll_resume outcome
      | O => ret ()
      end
  | CleansUp => poll_cleanup
  end.

Fixpoint poll_run (evs : list poll_event) (s : PollState)
  : PollState * list poll_call :=
  match evs with
  | [] => (s, [])
  | ev :: evs' =>
      let '(s1, w1, _) := poll_dispatch ev s in
      let '(s2, w2) := poll_run evs' s1 in
      (s2, w1 ++ w2)
  end.

End Effect.

(** Timers pending plus requests in flight. *)
Definition outstanding (s : PollState) : nat :=
  (length (timers s) + requests s)%nat.

Definition fetches (w : list poll_call) : list string :=
  omap (λ c, match c with GetTaskStatus t => Some t | _ => None end) w.

Definition poll_delays (w : list poll_call) : list Z :=
  omap (λ c, match c with SetTimeoutPoll d => Some d | _ => None end) w.

Definition is_mount (ev : poll_event) : bool :=
  match ev with
  | Mounts => true
  | _ => false
  end.

(** A response that keeps the loop going: a failure, or a snapshot
    whose status is not terminal. *)
Definition keeps_polling (o : completion Task) : bool :=
  match o with
  | Normal d =>
      negb (String.eqb (status d) "completed")
      && negb (String.eqb (status d) "failed")
  | Abrupt _ => true
  end.

(** Rounds of the loop: each response is followed by its timer firing. *)
Fixpoint rounds (outcomes : list (completion Task)) : list poll_event :=
  match outcomes with
  | [] => []
  | o :: os => Responds o :: TimerFires :: rounds os
  end.

(** The delay [poll] waits after a response that keeps it going. *)
Definition delay_after (o : completion Task) : Z :=
  match o with
  | Normal _ => 2000
  | Abrupt _ => 5000
  end.

(** The snapshot of the last successful response, [d] when there is none. *)
Fixpoint last_snapshot (outcomes : list (completion Task)) (d : option Task)
  : option Task :=
  match outcomes with
  | [] => d
  | Normal t :: os => last_snapshot os (Some t)
  | Abrupt _ :: os => last_snapshot os d
  end.

End TaskPolling.

(** ** utils/inferenceProgress.ts *)

Module InferenceProgress.
Import Types.

(** The literals ['pending'], ['processing'], ['completed'], ['failed']. *)
Inductive TileStatus : Type :=
| tile_pending
| tile_processing
| tile_completed
| tile_failed.

Record TileInferenceProgress : Type := {
  tile_status : TileStatus;
  tile_progress : Z;
}.

(** [Array.prototype.includes] *)
Definition includes (l : list Z) (x : Z) : bool := bool_decide (x ∈ l).

Definition getTileInferenceProgress (task : option Task)
    (inferencePageIds : list Z) (pageId : Z)
  : option TileInferenceProgress :=
  match task with
  | None => None
  | Some task =>
      if negb (includes inferencePageIds pageId) then None
      else if String.eqb (status task) "failed" then
        Some {| tile_status := tile_failed; tile_progress := 0 |}
      else if String.eqb (status task) "completed" then
        Some {| tile_status := tile_completed; tile_progress := 100 |}
      else
        let idx := RangeSelection.indexOf inferencePageIds pageId in
        let currentIdx :=
          Js.nullish (match progress task with
                      | Some p => current p
                      | None => None
                      end) 0 in
        let currentPageId :=
          match progress task with
          | Some p => page_id p
          | None => None
          end in
        if match currentPageId with
           | Some c => c =? pageId
           | None => false
           end
        then Some {| tile_status := tile_processing; tile_progress := 50 |}
        else if idx <? currentIdx then
          Some {| tile_status := tile_completed; tile_progress := 100 |}
        else if idx =? currentIdx then
          Some {| tile_status := tile_processing; tile_progress := 50 |}
        else Some {| tile_status := tile_pending; tile_progress := 0 |}
  end.

(** A running inference task at position [cur], the page being processed
    reported or not. *)
Definition running_at (cur : Z) (pg : option Z) : Task :=
  {| task_id := "t1"; type := "inference"; status := "running";
     progress := Some {| current := Some cur; total := None; page_id := pg;
                         progress_status := None; message := None;
                         phase := None |};
     result := None; error := None;
     created_at := "2024-01-01T00:00:00Z";
     updated_at := "2024-01-01T00:00:05Z" |}.

End InferenceProgress.

(** ** useAutoSave.ts: the navigation guard, reloads, what is asked for *)

Module AutoSaveSession.
Import Js Types AutoSave.

(** [handleBeforeUnload], when the browser runs it: whether it calls
    [preventDefault] and sets [returnValue]. The browser runs it only
    while the listener is registered, see [page_held_up]. *)
Definition handleBeforeUnload (s : State) : bool := hasUnsavedChanges s.

(** A reload of the page: every cell of the hook starts anew, the
    debounced function and the promises are gone; [localStorage] and the
    clock are the browser's and stay. *)
Definition reload (s : State) : State :=
  {| clock := clock s; localStorage := localStorage s; lastSaved := None;
     isSaving := false; hasUnsavedChanges := false; error := None;
     pending := None; inflight := []; issued := 0 |}.

(** The payloads the page asks to be written, by [save] or [forceSave]. *)
Definition asked (evs : list event) : list Lines :=
  omap (λ ev, match ev with
              | Save p => Some p
              | ForceSave p => Some p
              | _ => None
              end) evs.



(** The payload held by the debounced function, if any. *)
Definition held (s : State) : list Lines :=
  match pending s with
  | Some (p, _) => [p]
  | None => []
  end.

Definition is_elapse (ev : event) : bool :=
  match ev with
  | Elapse _ => true
  | _ => false
  end.




(** Another page, for the examples. *)
Definition page8 : UseAutoSaveOptions :=
  {| pageId := 8; debounceMs := Some 500 |}.

End AutoSaveSession.

(** ** pages/EditorPage.tsx: what the editor does with the hook *)

Module EditorPage.
Import Js Types AutoSave.

Inductive ViewMode : Type := manual | model.

(** The editor's [lines] and [viewMode] cells and the auto-save hook. *)
Record Editor : Type := {
  editor_lines : Lines;
  viewMode : ViewMode;
  autosave : State;
}.

Inductive editor_call : Type :=
| Hook (c : call)
| WindowConfirm (timestamp : Z)
| Announce (message : string).

Definition setLines (l : Lines) (e : Editor) : Editor :=
  {| editor_lines := l; viewMode := viewMode e; autosave := autosave e |}.

Definition set_autosave (s : State) (e : Editor) : Editor :=
  {| editor_lines := editor_lines e; viewMode := viewMode e; autosave := s |}.

(** An operation of the hook, run on the editor's hook state. *)
Definition hook {A} (m : M State call A) : M Editor editor_call A :=
  λ e, match m (autosave e) with
       | (s1, w1, c) => (set_autosave s1 e, Hook <$> w1, c)
       end.

Section Page.
Variable options : UseAutoSaveOptions.

(** The effect that checks for a backup on mount; [answer] is what the
    user answers to [window.confirm]. *)
Definition checkBackup (answer : bool) : M Editor editor_call unit :=
  backup ←ʲ gets (λ e, getBackup options (autosave e));
  match backup with
  | Some b =>
      emit (WindowConfirm (timestamp b)) ;;ʲ
      if answer then
        modify (setLines (lines b)) ;;ʲ
        emit (Announce "Restored from backup")
      else hook (clearBackup options)
  | None => ret ()
  end.

Definition handleLinesChange (newLines : Lines) : M Editor editor_call unit :=
  modify (setLines newLines) ;;ʲ
  vm ←ʲ gets viewMode;
  match vm with
  | manual => hook (save options newLines)
  | model => ret ()
  end.

End Page.

End EditorPage.

(** ** hooks/useKeyboardShortcuts.ts and the editor's shortcuts *)

Module KeyboardShortcuts.
Import Js Types AutoSave EditorPage.

(** What the handler reads of a [KeyboardEvent]: [e.ctrlKey],
    [e.altKey], [e.shiftKey], [e.key], and whether [e.target] is an
    input or a textarea. *)
Record KeyboardEvent : Type := {
  ctrl : bool;
  alt : bool;
  shift : bool;
  key : string;
  in_text_field : bool;
}.

(** [[e.ctrlKey && 'Ctrl', e.altKey && 'Alt', e.shiftKey && 'Shift',
      e.key].filter(Boolean).join('+')]: [false] and the empty string
    are dropped. *)
Definition key_name (e : KeyboardEvent) : string :=
  String.concat "+"
    (omap (λ x : option string, x)
       [if ctrl e then Some "Ctrl" else None;
        if alt e then Some "Alt" else None;
        if shift e then Some "Shift" else None;
        if String.eqb (key e) "" then None else Some (key e)]).

(** In an input or a textarea only Escape and Ctrl+S go through. *)
Definition held_back (e : KeyboardEvent) : bool :=
  in_text_field e
  && (negb (String.eqb (key e) "Escape")
      && negb (ctrl e && String.eqb (key e) "s")).

(** The [keydown] handler: the callback it runs, if any; it calls
    [preventDefault] exactly when it runs one. The shortcuts are the own
    properties of the object passed to the hook. *)
Definition keydown {A} (shortcuts : gmap string A) (enabled : bool)
    (e : KeyboardEvent) : option A :=
  if enabled then
    if held_back e then None else shortcuts !! key_name e
  else None.

(** The shortcuts of the editor page. *)
Inductive EditorShortcut : Type :=
| SaveNow
| ToggleViewMode
| ToggleLayout
| ToggleSync
| LeavePage
| PreviousLine
| NextLine.

Definition editor_shortcuts : gmap string EditorShortcut :=
  list_to_map
    [("Ctrl+s", SaveNow); ("Ctrl+m", ToggleViewMode);
     ("Ctrl+l", ToggleLayout); ("Ctrl+k", ToggleSync);
     ("Escape", LeavePage); ("Ctrl+ArrowUp", PreviousLine);
     ("Ctrl+ArrowDown", NextLine)].

(** ['Ctrl+s': () => forceSave(lines)] *)
Definition save_now : M Editor editor_call unit :=
  l ←ʲ gets editor_lines;
  hook (forceSave l).

End KeyboardShortcuts.

(** * Properties *)

(** ** Range selection *)

Module RangeSelectionProps.
Import RangeSelection.

Section WithIds.
Context `{Countable TId}.
Implicit Types (l orderedIds : list TId) (x id a : TId).

Lemma indexOf_from_absent l x i : x ∉ l → indexOf_from l x i = -1.
Proof.
  revert i. induction l as [|y l IH]; intros i Hx; simpl; [done|].
  apply not_elem_of_cons in Hx as [Hne Hx].
  destruct (decide (y = x)); [congruence|]. by apply IH.
Qed.

Lemma indexOf_from_present l x i :
  x ∈ l →
  i ≤ indexOf_from l x i < i + Z.of_nat (length l)
  ∧ l !! Z.to_nat (indexOf_from l x i - i) = Some x.
Proof.
  revert i. induction l as [|y l IH]; intros i Hx;
    [by apply elem_of_nil in Hx|].
  simpl. destruct (decide (y = x)) as [->|Hne].
  - split; [lia|]. by replace (i - i) with 0 by lia.
  - apply elem_of_cons in Hx as [->|Hx]; [done|].
    destruct (IH (i + 1) Hx) as [Hr Hl]. split; [lia|].
    replace (indexOf_from l x (i + 1) - i)
      with (Z.succ (indexOf_from l x (i + 1) - (i + 1))) by lia.
    rewrite Z2Nat.inj_succ by lia. done.
Qed.

Lemma indexOf_absent l x : x ∉ l → indexOf l x = -1.
Proof. apply indexOf_from_absent. Qed.

Lemma indexOf_present l x :
  x ∈ l →
  0 ≤ indexOf l x < Z.of_nat (length l) ∧ l !! Z.to_nat (indexOf l x) = Some x.
Proof.
  intros Hx. destruct (indexOf_from_present l x 0 Hx) as [Hr Hl].
  unfold indexOf. rewrite Z.sub_0_r in Hl. split; [lia|done].
Qed.

Lemma indexOf_minus_one l x : indexOf l x = -1 ↔ x ∉ l.
Proof.
  split; [|apply indexOf_absent].
  intros Hi Hx. apply indexOf_present in Hx. lia.
Qed.

Lemma elem_of_foldl_add_index l (idxs : list Z) (acc : gset TId) x :
  x ∈ foldl (add_index l) acc idxs
  ↔ x ∈ acc ∨ ∃ k, k ∈ idxs ∧ l !! Z.to_nat k = Some x.
Proof.
  revert acc. induction idxs as [|i idxs IH]; intros acc; simpl.
  - split; [by left|]. intros [?|(k & Hk & _)]; [done|].
    by apply elem_of_nil in Hk.
  - rewrite IH. unfold add_index. split.
    + intros [Hacc|(k & Hk & Hl)].
      * destruct (l !! Z.to_nat i) as [y|] eqn:Hy; [|by left].
        apply elem_of_union in Hacc as [?|Hx]; [by left|].
        apply elem_of_singleton in Hx as ->.
        right. exists i. split; [left|done].
      * right. exists k. split; [by right|done].
    + intros [Hacc|(k & Hk & Hl)].
      * left. destruct (l !! Z.to_nat i); [apply elem_of_union; by left|done].
      * apply elem_of_cons in Hk as [->|Hk].
        -- left. rewrite Hl. apply elem_of_union. right.
           by apply elem_of_singleton.
        -- right. by exists k.
Qed.

Lemma elem_of_add_range l lo hi x :
  x ∈ add_range l lo hi ∅ ↔ ∃ k, lo ≤ k ≤ hi ∧ l !! Z.to_nat k = Some x.
Proof.
  unfold add_range. rewrite elem_of_foldl_add_index. split.
  - intros [Hx|(k & Hk & Hl)]; [set_solver|].
    apply elem_of_seqZ in Hk. exists k. split; [lia|done].
  - intros (k & Hk & Hl). right. exists k. split; [|done].
    apply elem_of_seqZ. lia.
Qed.

Lemma elem_of_slice l lo hi x :
  0 ≤ lo →
  x ∈ slice l lo hi ↔ ∃ k, lo ≤ k ≤ hi ∧ l !! Z.to_nat k = Some x.
Proof.
  intros Hlo. unfold slice. rewrite list_elem_of_lookup. split.
  - intros [n Hn]. apply lookup_take_Some in Hn as [Hn Hlt].
    rewrite lookup_drop in Hn.
    exists (lo + Z.of_nat n). split; [lia|].
    by replace (Z.to_nat (lo + Z.of_nat n)) with (Z.to_nat lo + n)%nat by lia.
  - intros (k & Hk & Hl). exists (Z.to_nat (k - lo)).
    apply lookup_take_Some. split; [|lia].
    rewrite lookup_drop.
    by replace (Z.to_nat lo + Z.to_nat (k - lo))%nat with (Z.to_nat k) by lia.
Qed.

Lemma add_range_slice l lo hi :
  0 ≤ lo → add_range l lo hi ∅ = list_to_set (slice l lo hi).
Proof.
  intros Hlo. apply set_eq. intros x.
  rewrite elem_of_add_range, elem_of_list_to_set, elem_of_slice; done.
Qed.

(** What a shift-click computes when the anchor is set and both ids are
    found. *)
Lemma onItemClick_range orderedIds prev a id ev :
  shiftKey ev = true →
  anchorId prev = Some a →
  a ∈ orderedIds →
  id ∈ orderedIds →
  onItemClick orderedIds id ev prev
  = {| selectedIds :=
         add_range orderedIds
           (Z.min (indexOf orderedIds a) (indexOf orderedIds id))
           (Z.max (indexOf orderedIds a) (indexOf orderedIds id)) ∅;
       anchorId := Some a |}.
Proof.
  intros Hs Ha Hina Hinid. unfold onItemClick. rewrite Ha, Hs.
  apply indexOf_present in Hina as [Hra _].
  apply indexOf_present in Hinid as [Hrid _].
  destruct (Z.eqb_spec (indexOf orderedIds a) (-1)); [lia|].
  destruct (Z.eqb_spec (indexOf orderedIds id) (-1)); [lia|].
  simpl. destruct (Z.ltb_spec (indexOf orderedIds a) (indexOf orderedIds id)).
  - by rewrite Z.min_l, Z.max_r by lia.
  - by rewrite Z.min_r, Z.max_l by lia.
Qed.

(** C7. With the anchor set and both the anchor and the clicked id in the
    ordered sequence, a shift-click makes the selection exactly the
    inclusive slice of the sequence between the two positions, taken from
    the smaller to the larger; the anchor stays the original anchor; and
    the same selection results when the roles of anchor and clicked id
    are exchanged. *)
Theorem range_click_selects_slice orderedIds prev a id ev :
  shiftKey ev = true →
  anchorId prev = Some a →
  a ∈ orderedIds →
  id ∈ orderedIds →
  let i := indexOf orderedIds a in
  let j := indexOf orderedIds id in
  let next := onItemClick orderedIds id ev prev in
  selectedIds next = list_to_set (slice orderedIds (Z.min i j) (Z.max i j))
  ∧ (∀ x, x ∈ selectedIds next
          ↔ ∃ k, Z.min i j ≤ k ≤ Z.max i j
                 ∧ orderedIds !! Z.to_nat k = Some x)
  ∧ anchorId next = Some a
  ∧ (∀ prev', anchorId prev' = Some id →
              selectedIds (onItemClick orderedIds a ev prev')
              = selectedIds next).
Proof.
  intros Hs Ha Hina Hinid i j next.
  assert (Hnext := onItemClick_range orderedIds prev a id ev Hs Ha Hina Hinid).
  fold i j next in Hnext.
  destruct (indexOf_present _ _ Hina) as [Hi _].
  destruct (indexOf_present _ _ Hinid) as [Hj _]. fold i in Hi. fold j in Hj.
  rewrite Hnext. simpl. repeat split.
  - apply add_range_slice. lia.
  - apply elem_of_add_range.
  - apply elem_of_add_range.
  - intros prev' Ha'.
    rewrite (onItemClick_range orderedIds prev' id a ev Hs Ha' Hinid Hina).
    simpl. fold i j. by rewrite Z.min_comm, Z.max_comm.
Qed.

(** What a shift-click does when the anchor is set but the anchor or the
    clicked id is not in the ordered sequence. *)
Lemma onItemClick_unresolved orderedIds prev a id ev :
  shiftKey ev = true →
  anchorId prev = Some a →
  a ∉ orderedIds ∨ id ∉ orderedIds →
  onItemClick orderedIds id ev prev
  = {| selectedIds := {[id]}; anchorId := Some id |}.
Proof.
  intros Hs Ha Hout. unfold onItemClick. rewrite Ha, Hs.
  destruct Hout as [Hout|Hout]; apply indexOf_absent in Hout; rewrite Hout.
  - done.
  - by rewrite orb_true_r.
Qed.

(** C8, as the code has it. A shift-click is a plain click (selection
    [{id}], anchor [id]) when the anchor is set but the anchor or the
    clicked id is absent from the ordered sequence, whether or not the
    toggle modifier is pressed, and when the anchor is unset and the
    toggle modifier is not pressed. With the anchor unset and the toggle
    modifier pressed the click is handled as a toggle click. *)
Theorem range_click_fallback orderedIds prev id ev :
  shiftKey ev = true →
  ((∃ a, anchorId prev = Some a ∧ (a ∉ orderedIds ∨ id ∉ orderedIds))
   ∨ (anchorId prev = None ∧ metaKey ev || ctrlKey ev = false) →
   onItemClick orderedIds id ev prev
   = onItemClick orderedIds id plain_click prev
   ∧ onItemClick orderedIds id ev prev
     = {| selectedIds := {[id]}; anchorId := Some id |})
  ∧ (anchorId prev = None ∧ metaKey ev || ctrlKey ev = true →
     onItemClick orderedIds id ev prev
     = onItemClick orderedIds id toggle_click prev).
Proof.
  intros Hs. split.
  - intros [(a & Ha & Hout)|[Ha Hm]].
    + rewrite (onItemClick_unresolved _ _ _ _ _ Hs Ha Hout).
      split; [|done]. unfold onItemClick. by rewrite Ha.
    + unfold onItemClick. by rewrite Ha, Hm.
  - intros [Ha Hm]. unfold onItemClick. by rewrite Ha, Hm.
Qed.

(** What a click with the toggle modifier and without shift computes. *)
Lemma onItemClick_toggle orderedIds prev x ev :
  shiftKey ev = false →
  metaKey ev || ctrlKey ev = true →
  onItemClick orderedIds x ev prev
  = {| selectedIds :=
         if decide (x ∈ selectedIds prev)
         then selectedIds prev ∖ {[x]}
         else selectedIds prev ∪ {[x]};
       anchorId := anchorId prev |}.
Proof.
  intros Hs Hm. unfold onItemClick. rewrite Hs, Hm.
  by destruct (anchorId prev).
Qed.

(** C10. A toggle click on [x] flips the membership of [x], leaves the
    membership of every other id and the anchor as they were; two toggle
    clicks in a row give back the state before them; and a toggle click
    on the anchor item of a plain click removes it from the selection
    while the anchor is kept. *)
Theorem toggle_click_flips orderedIds prev x ev :
  shiftKey ev = false →
  metaKey ev || ctrlKey ev = true →
  let next := onItemClick orderedIds x ev prev in
  (x ∈ selectedIds next ↔ x ∉ selectedIds prev)
  ∧ (∀ y, y ≠ x → (y ∈ selectedIds next ↔ y ∈ selectedIds prev))
  ∧ anchorId next = anchorId prev
  ∧ onItemClick orderedIds x ev next = prev
  ∧ (let clicked := onItemClick orderedIds x plain_click prev in
     let toggled := onItemClick orderedIds x ev clicked in
     x ∈ selectedIds clicked
     ∧ (x ∉ selectedIds toggled)
     ∧ anchorId toggled = Some x).
Proof.
  intros Hs Hm next.
  assert (Hnext := onItemClick_toggle orderedIds prev x ev Hs Hm).
  fold next in Hnext.
  assert (Hx : x ∈ selectedIds next ↔ x ∉ selectedIds prev).
  { rewrite Hnext. simpl.
    destruct (decide (x ∈ selectedIds prev)); set_solver. }
  assert (Hy : ∀ y, y ≠ x → (y ∈ selectedIds next ↔ y ∈ selectedIds prev)).
  { intros y Hne. rewrite Hnext. simpl.
    destruct (decide (x ∈ selectedIds prev)); set_solver. }
  split_and!.
  - done.
  - done.
  - by rewrite Hnext.
  - rewrite (onItemClick_toggle orderedIds next x ev Hs Hm).
    destruct prev as [sel anc]. f_equal.
    + apply set_eq. intros y. destruct (decide (y = x)) as [->|Hne].
      * destruct (decide (x ∈ selectedIds next)) as [Hin|Hin].
        -- apply Hx in Hin. set_solver.
        -- assert (x ∈ sel) by (destruct (decide (x ∈ sel)); [done|];
             exfalso; apply Hin, Hx; done).
           set_solver.
      * specialize (Hy y Hne). simpl in Hy.
        destruct (decide (x ∈ selectedIds next)); set_solver.
    + by rewrite Hnext.
  - intros clicked toggled.
    assert (Hc : clicked = {| selectedIds := {[x]}; anchorId := Some x |}).
    { unfold clicked, onItemClick. simpl. by destruct (anchorId prev). }
    unfold toggled.
    rewrite (onItemClick_toggle orderedIds clicked x ev Hs Hm), Hc. simpl.
    rewrite decide_True by set_solver. set_solver.
Qed.

End WithIds.

(** The design document's example: in [a,b,c,d,e] (here 1..5), a plain
    click on [b] then a shift-click on [d] selects [{b,c,d}], and so do a
    plain click on [d] then a shift-click on [b]. *)
Example range_symmetry_example :
  let S := [1; 2; 3; 4; 5] in
  let click id ev st := onItemClick S id ev st in
  selectedIds (click 4 range_click (click 2 plain_click empty_selection))
  = ({[2; 3; 4]} : gset Z)
  ∧ selectedIds (click 2 range_click (click 4 plain_click empty_selection))
    = ({[2; 3; 4]} : gset Z).
Proof. split; apply set_eq; intros x; vm_compute; set_solver. Qed.

Lemma range_click_selects_slice_witness :
  let S := [10; 20; 30; 40] in
  let prev : RangeSelectionState Z :=
    {| selectedIds := {[20]}; anchorId := Some 20 |} in
  selectedIds (onItemClick S 40 range_click prev)
  = list_to_set (slice S 1 3).
Proof.
  intros S prev.
  refine (proj1 (range_click_selects_slice S prev 20 40 range_click
                   eq_refl eq_refl _ _)).
  - unfold S. set_solver.
  - unfold S. set_solver.
Defined.

Lemma range_click_fallback_witness :
  let prev : RangeSelectionState Z :=
    {| selectedIds := {[1; 2]}; anchorId := Some 7 |} in
  onItemClick [1; 2; 3] 3 toggle_range_click prev
  = {| selectedIds := {[3]}; anchorId := Some 3 |}.
Proof.
  intros prev.
  refine (proj2 (proj1 (range_click_fallback [1; 2; 3] prev 3
                          toggle_range_click eq_refl) _)).
  left. exists 7. split; [reflexivity|]. left. set_solver.
Defined.

Lemma toggle_click_flips_witness :
  let prev : RangeSelectionState Z :=
    {| selectedIds := {[1; 3]}; anchorId := Some 1 |} in
  let next := onItemClick [1; 2; 3] 1 toggle_click prev in
  (1 ∈ selectedIds next ↔ 1 ∉ selectedIds prev)
  ∧ onItemClick [1; 2; 3] 1 toggle_click next = prev.
Proof.
  intros prev next.
  pose proof (toggle_click_flips [1; 2; 3] prev 1 toggle_click
                eq_refl eq_refl) as (H1 & _ & _ & H4 & _).
  split; [exact H1|exact H4].
Defined.

(** C8 as stated fails: with the anchor unset and the toggle modifier
    pressed together with shift, the click toggles (here it adds 2 to
    the selection and leaves the anchor unset) instead of selecting only
    the clicked id and anchoring at it. *)
Lemma range_click_fallback_counterexample :
  let prev : RangeSelectionState Z :=
    {| selectedIds := {[1]}; anchorId := None |} in
  let next := onItemClick [1; 2; 3] 2 toggle_range_click prev in
  shiftKey toggle_range_click = true
  ∧ anchorId prev = None
  ∧ selectedIds next = {[1; 2]}
  ∧ anchorId next = None
  ∧ next ≠ {| selectedIds := {[2]}; anchorId := Some 2 |}.
Proof.
  intros prev next.
  assert (Hnext : next = {| selectedIds := {[1; 2]}; anchorId := None |}).
  { unfold next, onItemClick. simpl. by rewrite decide_False by set_solver. }
  rewrite Hnext. split_and!; done.
Qed.

End RangeSelectionProps.

(** ** Task-progress socket *)

Module TaskSocketProps.
Import Js Types TaskSocket.

Section Hook.
Variable taskId : option string.
Variable options : UseWebSocketOptions.

Lemma ref_not_terminal_Some v :
  ref_not_terminal (Some v) = negb (is_terminal v).
Proof. unfold ref_not_terminal, is_terminal. by rewrite negb_orb. Qed.

(** The handlers as plain functions of the state. *)
Lemma onclose_unfold s :
  onclose options s
  = if ref_not_terminal (taskStatusRef s)
       && (attemptsRef s <? maxAttempts options)
    then (set_attemptsRef (attemptsRef s + 1) (setStatus closed s),
          [SetTimeoutConnect (interval options * 2 ^ attemptsRef s)],
          Normal ())
    else (setStatus closed s, [], Normal ()).
Proof.
  unfold onclose, bind, modify, gets, when, emit, ret. simpl.
  destruct (ref_not_terminal (taskStatusRef s)); simpl; [|done].
  by destruct (attemptsRef s <? maxAttempts options).
Qed.

Lemma onmessage_unfold ws d s :
  onmessage options ws (Encodes d) s
  = (set_taskStatusRef (Types.status d) (setTaskData d s),
     (if onMessage options then [CallOnMessage d] else [])
     ++ (if is_terminal (Types.status d) then [WsClose ws] else []),
     Normal ()).
Proof.
  unfold onmessage, bind, modify, gets, when, emit, ret. simpl.
  destruct (onMessage options), (is_terminal (Types.status d)); done.
Qed.

Lemma onmessage_malformed ws raw s :
  onmessage options ws (Malformed raw) s
  = (s, [], Abrupt (ErrorObject "SyntaxError" raw)).
Proof. done. Qed.

Lemma socket_run_cons ev evs s :
  run_events taskId options (ev :: evs) s
  = let '(s1, w1, c) := dispatch taskId options ev s in
    let r := run_events taskId options evs s1 in
    {| final := final r;
       calls := w1 ++ calls r;
       uncaught := match c with
                   | Normal _ => uncaught r
                   | Abrupt e => e :: uncaught r
                   end |}.
Proof. done. Qed.

Lemma scheduled_app w1 w2 : scheduled (w1 ++ w2) = scheduled w1 ++ scheduled w2.
Proof. apply omap_app. Qed.

Lemma connect_cells s :
  let r := connect taskId s in
  taskData (state_of r) = taskData s
  ∧ taskStatusRef (state_of r) = taskStatusRef s
  ∧ attemptsRef (state_of r) = attemptsRef s
  ∧ scheduled (calls_of r) = [].
Proof.
  unfold connect. destruct taskId as [tid|]; [|done].
  by destruct (String.eqb tid "").
Qed.

(** Every handler but [onmessage] leaves the task data and the status
    cell alone. *)
Lemma handle_keeps_snapshot ev s :
  is_message ev = false →
  let r := dispatch taskId options ev s in
  taskData (state_of r) = taskData s
  ∧ taskStatusRef (state_of r) = taskStatusRef s.
Proof.
  destruct ev; simpl; try done; intros _.
  - by destruct (connect_cells s) as (? & ? & _).
  - unfold onerror, when. by destruct (onError options).
  - rewrite onclose_unfold. by destruct (_ && _).
  - unfold cleanup, bind, gets. simpl. by destruct (wsRef s).
Qed.

(** With a terminal status in the status cell, no handler but
    [onmessage] schedules a reconnection. *)
Lemma handle_terminal_quiet ev s :
  is_message ev = false →
  ref_not_terminal (taskStatusRef s) = false →
  scheduled (calls_of (dispatch taskId options ev s)) = [].
Proof.
  destruct ev; simpl; try done; intros _ Hterm.
  - by destruct (connect_cells s) as (_ & _ & _ & ?).
  - unfold onerror, when. by destruct (onError options).
  - rewrite onclose_unfold, Hterm. done.
  - unfold cleanup, bind, gets. simpl. by destruct (wsRef s).
Qed.

(** Only [onmessage] can complete abruptly. *)
Lemma handle_normal ev s :
  is_message ev = false →
  completion_of (dispatch taskId options ev s) = Normal ().
Proof.
  destruct ev; simpl; try done; intros _.
  - unfold connect. destruct taskId as [tid|]; [|done].
    by destruct (String.eqb tid "").
  - unfold onerror, when. by destruct (onError options).
  - rewrite onclose_unfold. by destruct (_ && _).
  - unfold cleanup, bind, gets. simpl. by destruct (wsRef s).
Qed.

Lemma run_terminal_quiet evs s :
  forallb (λ ev, negb (is_message ev)) evs = true →
  ref_not_terminal (taskStatusRef s) = false →
  let r := run_events taskId options evs s in
  taskData (final r) = taskData s
  ∧ taskStatusRef (final r) = taskStatusRef s
  ∧ scheduled (calls r) = []
  ∧ uncaught r = [].
Proof.
  revert s. induction evs as [|ev evs IH]; intros s Hevs Hterm; [done|].
  simpl in Hevs. apply andb_true_iff in Hevs as [Hev Hevs].
  apply negb_true_iff in Hev.
  rewrite socket_run_cons.
  pose proof (handle_keeps_snapshot ev s Hev) as [Hd Hr].
  pose proof (handle_terminal_quiet ev s Hev Hterm) as Hq.
  pose proof (handle_normal ev s Hev) as Hc.
  destruct (dispatch taskId options ev s) as [[s1 w1] c].
  unfold state_of, calls_of, completion_of in Hd, Hr, Hq, Hc.
  simpl in Hd, Hr, Hq, Hc. subst c.
  assert (Hterm1 : ref_not_terminal (taskStatusRef s1) = false)
    by (by rewrite Hr).
  destruct (IH s1 Hevs Hterm1) as (IHd & IHr & IHq & IHu).
  simpl. rewrite scheduled_app, Hq, IHq, IHd, IHr. done.
Qed.

(** C2, as the code has it. A terminal snapshot is recorded in the task
    data and in the status cell and the socket is closed; as long as no
    further snapshot is delivered to the message handler, the recorded
    snapshot stays, and no close event (however many follow) schedules a
    reconnection. *)
Theorem terminal_snapshot_stops_reconnection ws t evs s :
  is_terminal (Types.status t) = true →
  forallb (λ ev, negb (is_message ev)) evs = true →
  let r := run_events taskId options (MessageOn ws (Encodes t) :: evs) s in
  taskData (final r) = Some t
  ∧ taskStatusRef (final r) = Some (Types.status t)
  ∧ WsClose ws ∈ calls r
  ∧ scheduled (calls r) = []
  ∧ uncaught r = [].
Proof.
  intros Hterm Hevs r. unfold r. rewrite socket_run_cons. simpl dispatch.
  rewrite onmessage_unfold, Hterm.
  set (s1 := set_taskStatusRef _ _).
  assert (Hterm1 : ref_not_terminal (taskStatusRef s1) = false).
  { change (ref_not_terminal (Some (Types.status t)) = false).
    by rewrite ref_not_terminal_Some, Hterm. }
  destruct (run_terminal_quiet evs s1 Hevs Hterm1) as (Hd & Hr & Hq & Hu).
  simpl. rewrite scheduled_app, Hq, Hd, Hr, Hu. split_and!; try done.
  - destruct (onMessage options); set_solver.
  - by destruct (onMessage options).
Qed.

(** C3, as the code has it. A message whose data is not JSON is dropped
    and nothing else: the status, the task data, the status cell and the
    attempt counter are as before, no call is made, and the events that
    follow are handled as if the message had not arrived. The handler
    does not catch the [SyntaxError] of [JSON.parse]: it completes
    abruptly and the error is reported as uncaught. *)
Theorem malformed_message_discarded ws raw evs s :
  onmessage options ws (Malformed raw) s
  = (s, [], Abrupt (ErrorObject "SyntaxError" raw))
  ∧ (let r :=
       run_events taskId options (MessageOn ws (Malformed raw) :: evs) s in
     let r0 := run_events taskId options evs s in
     final r = final r0
     ∧ calls r = calls r0
     ∧ uncaught r = ErrorObject "SyntaxError" raw :: uncaught r0).
Proof. done. Qed.

Lemma backoff_delays_nil a b : b ≤ a → backoff_delays options a b = [].
Proof.
  intros Hab. unfold backoff_delays.
  destruct (b - a) as [|p|p] eqn:Hp; try done. lia.
Qed.

Lemma backoff_delays_cons a b :
  a < b →
  backoff_delays options a b
  = interval options * 2 ^ a :: backoff_delays options (a + 1) b.
Proof.
  intros Hab. unfold backoff_delays.
  rewrite (seqZ_cons a (b - a)) by lia. simpl.
  by replace (Z.pred (b - a)) with (b - (a + 1)) by lia.
Qed.

Lemma closes_cons ev evs :
  closes (ev :: evs) = (if is_close ev then 1 else 0) + closes evs.
Proof. unfold closes. simpl. destruct (is_close ev); simpl; lia. Qed.

Lemma closes_nonneg evs : 0 ≤ closes evs.
Proof. unfold closes. lia. Qed.

(** Closes without an open in between, the last known status never
    terminal: the attempt counter and the delays scheduled. *)
Lemma run_retrying evs s :
  ref_not_terminal (taskStatusRef s) = true →
  forallb keeps_retrying evs = true →
  let M := maxAttempts options in
  let r := run_events taskId options evs s in
  attemptsRef (final r)
  = Z.min (attemptsRef s + closes evs) (Z.max (attemptsRef s) M)
  ∧ ref_not_terminal (taskStatusRef (final r)) = true
  ∧ scheduled (calls r)
    = backoff_delays options (attemptsRef s) (attemptsRef (final r)).
Proof.
  intros Hlive Hevs M. revert s Hlive Hevs.
  induction evs as [|ev evs IH]; intros s Hlive Hevs.
  - simpl. unfold closes. simpl. split_and!; [lia|done|].
    by rewrite backoff_delays_nil.
  - simpl in Hevs. apply andb_true_iff in Hevs as [Hev Hevs].
    pose proof (closes_nonneg evs) as Hc.
    rewrite socket_run_cons, closes_cons.
    destruct ev as [| |ws [d|raw]| | |]; try done; simpl dispatch.
    + (* a reconnect timer runs [connect] *)
      destruct (connect_cells s) as (_ & Hr & Ha & Hq).
      destruct (connect taskId s) as [[s1 w1] c].
      unfold state_of, calls_of in Hr, Ha, Hq. simpl in Hr, Ha, Hq.
      destruct (IH s1) as (IHa & IHl & IHq); [by rewrite Hr|done|].
      simpl. rewrite scheduled_app, Hq, IHq, IHa, Ha.
      split_and!; [lia|done|done].
    + (* a snapshot whose status is not terminal *)
      rewrite onmessage_unfold. simpl in Hev.
      apply negb_true_iff in Hev. rewrite Hev.
      set (s1 := set_taskStatusRef _ _).
      destruct (IH s1) as (IHa & IHl & IHq); [|done|].
      { change (ref_not_terminal (Some (Types.status d)) = true).
        by rewrite ref_not_terminal_Some, Hev. }
      cbn [final calls]. rewrite scheduled_app, IHq, IHa.
      split_and!; [simpl; lia|done|].
      by destruct (onMessage options).
    + (* an error event *)
      unfold onerror, when.
      destruct (onError options); simpl;
        destruct (IH s) as (IHa & IHl & IHq); try done;
        rewrite IHa; (split_and!; [lia|done|done]).
    + (* a close event *)
      rewrite onclose_unfold, Hlive. simpl andb.
      destruct (Z.ltb_spec (attemptsRef s) (maxAttempts options)) as [Hlt|Hge].
      * set (s1 := set_attemptsRef _ _).
        destruct (IH s1) as (IHa & IHl & IHq); [done|done|].
        cbn [final calls]. rewrite scheduled_app, IHq, IHa.
        subst s1. simpl. fold M in Hlt |- *.
        split_and!; [lia|done|].
        rewrite (backoff_delays_cons (attemptsRef s)); [done|]. lia.
      * set (s1 := setStatus closed s).
        destruct (IH s1) as (IHa & IHl & IHq); [done|done|].
        simpl. rewrite IHq, IHa. simpl. fold M in Hge |- *.
        split_and!; [lia|done|].
        done.
    + (* the effect's cleanup *)
      unfold cleanup, bind, gets. simpl.
      destruct (wsRef s); simpl;
        destruct (IH s) as (IHa & IHl & IHq); try done;
        rewrite IHa; (split_and!; [lia|done|done]).
Qed.

(** C4. After [k] closes with no open in between and the last known
    status never terminal, starting from a counter of 0: when [k] is
    below [maxAttempts] the next close schedules a reconnection after
    [interval * 2^k] and counts it; when [k] has reached [maxAttempts]
    the next close schedules nothing; the delays scheduled so far are
    [interval * 2^i] for [i] below the smaller of [k] and [maxAttempts].
    An open resets the counter to 0. The defaults are 5 attempts and
    2000 ms. *)
Theorem backoff_schedule evs s :
  attemptsRef s = 0 →
  ref_not_terminal (taskStatusRef s) = true →
  forallb keeps_retrying evs = true →
  let k := closes evs in
  let r := run_events taskId options evs s in
  let next := onclose options (final r) in
  (k < maxAttempts options →
   calls_of next = [SetTimeoutConnect (interval options * 2 ^ k)]
   ∧ attemptsRef (state_of next) = k + 1)
  ∧ (maxAttempts options ≤ k →
     calls_of next = []
     ∧ attemptsRef (state_of next) = attemptsRef (final r))
  ∧ scheduled (calls r)
    = backoff_delays options 0 (Z.min k (maxAttempts options))
  ∧ attemptsRef (state_of (onopen (final r))) = 0
  ∧ maxAttempts default_options = 5
  ∧ interval default_options = 2000.
Proof.
  intros H0 Hlive Hevs k r next.
  destruct (run_retrying evs s Hlive Hevs) as (Ha & Hl & Hq).
  fold r in Ha, Hl, Hq. rewrite H0 in Ha, Hq. fold k in Ha.
  pose proof (closes_nonneg evs) as Hk. fold k in Hk.
  unfold next. rewrite onclose_unfold, Hl. simpl andb.
  split_and!; try done.
  - intros Hlt.
    assert (Hak : attemptsRef (final r) = k) by lia.
    rewrite Hak. destruct (Z.ltb_spec k (maxAttempts options)); [done|lia].
  - intros Hge.
    destruct (Z.ltb_spec (attemptsRef (final r)) (maxAttempts options));
      [lia|done].
  - rewrite Hq, Ha.
    destruct (Z.le_gt_cases (maxAttempts options) 0).
    + rewrite !backoff_delays_nil; [done|lia|lia].
    + f_equal. lia.
Qed.

End Hook.

Lemma terminal_snapshot_stops_reconnection_witness :
  let evs := [Closed; Errored; Closed; Connects; Closed] in
  let r := run_events (Some "t1") default_options
             (MessageOn 0 (Encodes (snapshot "failed")) :: evs)
             socket_initial in
  taskData (final r) = Some (snapshot "failed")
  ∧ scheduled (calls r) = [].
Proof.
  intros evs r.
  destruct (terminal_snapshot_stops_reconnection (Some "t1") default_options
              0 (snapshot "failed") evs socket_initial eq_refl eq_refl)
    as (Hd & _ & _ & Hq & _).
  split; [exact Hd|exact Hq].
Defined.

(** C2 as stated fails. The effect runs again while socket 0 is open, so
    that sockets 1 and 2 end up open together; socket 1 delivers a
    [completed] snapshot and is closed by the handler; a snapshot that
    then arrives on socket 2 replaces the task data and the status cell,
    and the close event of socket 1 schedules a reconnection. *)
Lemma terminal_snapshot_absorbing_counterexample :
  let evs :=
    [Connects; Opened; Cleanup; Connects; Closed; Connects; Opened;
     MessageOn 1 (Encodes (snapshot "completed"));
     MessageOn 2 (Encodes (snapshot "running"));
     Closed] in
  let r := run_events (Some "t1") default_options evs socket_initial in
  is_terminal (Types.status (snapshot "completed")) = true
  ∧ taskData (final r) = Some (snapshot "running")
  ∧ taskData (final r) ≠ Some (snapshot "completed")
  ∧ taskStatusRef (final r) = Some "running"
  ∧ calls r
    = [NewWebSocket 0 "t1"; WsClose 0; NewWebSocket 1 "t1";
       SetTimeoutConnect 2000; NewWebSocket 2 "t1"; WsClose 1;
       SetTimeoutConnect 2000].
Proof. intros evs r. vm_compute. split_and!; done. Qed.

(** C3 as stated fails on one point: the [SyntaxError] escapes the
    handler. *)
Lemma malformed_message_counterexample :
  let evs := [Connects; Opened; MessageOn 0 (Malformed "{oops")] in
  completion_of (onmessage default_options 0 (Malformed "{oops") socket_initial)
  = Abrupt (ErrorObject "SyntaxError" "{oops")
  ∧ uncaught (run_events (Some "t1") default_options evs socket_initial)
    = [ErrorObject "SyntaxError" "{oops"].
Proof. done. Qed.

Lemma backoff_schedule_witness :
  let evs := [Closed; Connects; Errored; Closed; Connects; Errored; Closed] in
  let r := run_events (Some "t1") default_options evs socket_initial in
  calls_of (onclose default_options (final r)) = [SetTimeoutConnect 16000]
  ∧ scheduled (calls r) = [2000; 4000; 8000].
Proof.
  intros evs r.
  destruct (backoff_schedule (Some "t1") default_options evs socket_initial
              eq_refl eq_refl eq_refl) as (Hnext & _ & Hq & _).
  split; [|exact Hq].
  refine (proj1 (Hnext _)). vm_compute. reflexivity.
Defined.

(** With the default options the sixth close in a row schedules
    nothing. *)
Example backoff_gives_up :
  let evs := [Closed; Closed; Closed; Closed; Closed; Closed; Closed] in
  scheduled (calls (run_events (Some "t1") default_options evs socket_initial))
  = [2000; 4000; 8000; 16000; 32000].
Proof. done. Qed.

End TaskSocketProps.

(** ** Auto-save *)

Module AutoSaveProps.
Import Js Types AutoSave.

Section Hook.
Variable options : UseAutoSaveOptions.

(** The operations as plain functions of the state. *)
Lemma save_unfold payload s :
  save options payload s
  = (set_pending (Some (payload, clock s))
       (setHasUnsavedChanges true
          (set_localStorage
             (<[backupKey options :=
                  Encodes {| lines := payload; timestamp := clock s |}]>
                (localStorage s)) s)),
     [SetItem (backupKey options)
        (Encodes {| lines := payload; timestamp := clock s |});
      DebounceArm payload],
     Normal ()).
Proof. done. Qed.

Lemma saveToServer_call_unfold who payload s :
  saveToServer_call who payload s
  = (set_inflight (inflight s ++ [(issued s, who)]) (S (issued s))
       (setError None (setIsSaving true s)),
     [OnSave (issued s) payload],
     Normal ()).
Proof. done. Qed.

Lemma forceSave_unfold payload s :
  forceSave payload s
  = (set_inflight (inflight s ++ [(issued s, FromForceSave)]) (S (issued s))
       (setError None (setIsSaving true (set_pending None s))),
     [DebounceCancel; OnSave (issued s) payload],
     Normal ()).
Proof. done. Qed.

Lemma saveToServer_resume_rejected e s :
  saveToServer_resume options (Abrupt e) s
  = (setIsSaving false (setError (Some (failure_message e)) s),
     [ConsoleError e],
     Normal ()).
Proof. done. Qed.

Lemma saveToServer_resume_resolved s :
  saveToServer_resume options (Normal ()) s
  = (setIsSaving false
       (setHasUnsavedChanges false
          (setLastSaved (Some (clock s))
             (set_localStorage
                (delete (backupKey options) (localStorage s)) s))),
     [RemoveItem (backupKey options)],
     Normal ()).
Proof. done. Qed.

(** [saveToServer] catches whatever [onSave] rejects with: it never
    completes abruptly. *)
Lemma saveToServer_resume_normal outcome s :
  completion_of (saveToServer_resume options outcome s) = Normal ().
Proof. by destruct outcome as [[]|e]. Qed.

Lemma elapse_unfold dt s :
  handle options (Elapse dt) s
  = match pending s with
    | Some (lastArgs, lastCallTime) =>
        if lastCallTime + wait options <=? clock s + Z.of_N dt then
          (set_inflight (inflight s ++ [(issued s, FromDebounce)])
             (S (issued s))
             (setError None
                (setIsSaving true
                   (set_pending None (set_clock (clock s + Z.of_N dt) s)))),
           [OnSave (issued s) lastArgs],
           Normal ())
        else (set_clock (clock s + Z.of_N dt) s, [], Normal ())
    | None => (set_clock (clock s + Z.of_N dt) s, [], Normal ())
    end.
Proof.
  unfold handle, debounce_timer, bind, gets, modify. simpl.
  destruct (pending s) as [[lastArgs lastCallTime]|]; [|done].
  by destruct (_ <=? _).
Qed.

Lemma autosave_run_cons ev evs s :
  run options (ev :: evs) s
  = ((run options evs (state_of (handle options ev s))).1,
     calls_of (handle options ev s)
     ++ (run options evs (state_of (handle options ev s))).2).
Proof.
  simpl. destruct (handle options ev s) as [[s1 w1] c].
  unfold state_of, calls_of. simpl. by destruct (run options evs s1).
Qed.

Lemma autosave_run_app evs1 evs2 s :
  run options (evs1 ++ evs2) s
  = ((run options evs2 (run options evs1 s).1).1,
     (run options evs1 s).2 ++ (run options evs2 (run options evs1 s).1).2).
Proof.
  revert s. induction evs1 as [|ev evs1 IH]; intros s.
  - simpl. by destruct (run options evs2 s).
  - rewrite <- app_comm_cons, !autosave_run_cons, IH. simpl.
    by rewrite app_assoc.
Qed.

Lemma remote_writes_app w1 w2 :
  remote_writes (w1 ++ w2) = remote_writes w1 ++ remote_writes w2.
Proof. apply omap_app. Qed.

Lemma local_writes_app w1 w2 :
  local_writes options (w1 ++ w2)
  = local_writes options w1 ++ local_writes options w2.
Proof. apply omap_app. Qed.

Lemma origin_of_fresh (l : list (nat * origin)) n who :
  forallb (λ p : nat * origin, Nat.ltb p.1 n) l = true →
  origin_of n (l ++ [(n, who)]) = Some who.
Proof.
  induction l as [|[r o] l IH]; simpl; intros Hl.
  - by rewrite Nat.eqb_refl.
  - apply andb_true_iff in Hl as [Hr Hl]. apply Nat.ltb_lt in Hr.
    destruct (Nat.eqb_spec r n); [lia|]. by apply IH.
Qed.

Lemma last_cons_default {A} (l : list A) (p d : A) :
  List.last (p :: l) d = List.last l p.
Proof.
  revert p d. induction l as [|a l IH]; intros p d; [done|].
  change (List.last (a :: l) d = List.last (a :: l) p). by rewrite !IH.
Qed.

(** During a burst of [save] calls, each less than [wait] milliseconds
    after the one before, the timer never becomes due: every call writes
    the backup, none reaches the remote endpoint, and the debounced
    function holds the last payload. *)
Lemma run_burst rest payload s :
  pending s = Some (payload, clock s) →
  forallb (λ gp : N * Lines, Z.of_N gp.1 <? wait options) rest = true →
  let r := run options (burst rest) s in
  pending r.1 = Some (List.last rest.*2 payload, clock r.1)
  ∧ remote_writes r.2 = []
  ∧ local_writes options r.2 = rest.*2.
Proof.
  revert payload s. induction rest as [|[gap p] rest IH];
    intros payload s Hp Hgaps; [done|].
  simpl in Hgaps. apply andb_true_iff in Hgaps as [Hgap Hgaps].
  apply Z.ltb_lt in Hgap.
  cbn [burst]. rewrite autosave_run_cons, elapse_unfold, Hp.
  destruct (Z.leb_spec (clock s + wait options) (clock s + Z.of_N gap));
    [lia|].
  cbn [state_of calls_of fst snd]. rewrite autosave_run_cons. cbn [handle].
  rewrite save_unfold.
  cbn [state_of calls_of fst snd].
  set (s1 := set_pending _ _).
  destruct (IH p s1 eq_refl Hgaps) as (IHp & IHr & IHl).
  rewrite !remote_writes_app, !local_writes_app, IHr, IHl, IHp.
  split_and!.
  - by rewrite fmap_cons, last_cons_default.
  - done.
  - simpl. by rewrite String.eqb_refl.
Qed.

(** C5. [N] calls of [save], each less than the debounce delay after
    the one before, followed by a quiet period of at least that delay,
    make exactly one remote write, carrying the last payload, and [N]
    local backup writes, one per call and in the order of the calls;
    no remote write is made during the burst; and each [save] writes the
    backup before it calls the debounced function. *)
Theorem burst_coalesces P1 rest D s :
  forallb (λ gp : N * Lines, Z.of_N gp.1 <? wait options) rest = true →
  wait options ≤ Z.of_N D →
  let payloads := P1 :: rest.*2 in
  let during := run options (Save P1 :: burst rest) s in
  let whole := run options (Save P1 :: burst rest ++ [Elapse D]) s in
  remote_writes during.2 = []
  ∧ local_writes options during.2 = payloads
  ∧ remote_writes whole.2 = [List.last rest.*2 P1]
  ∧ local_writes options whole.2 = payloads
  ∧ length (local_writes options whole.2) = S (length rest)
  ∧ pending whole.1 = None
  ∧ (∀ P s',
       calls_of (save options P s')
       = [SetItem (backupKey options)
            (Encodes {| lines := P; timestamp := clock s' |});
          DebounceArm P]).
Proof.
  intros Hgaps HD payloads during whole.
  assert (Hduring :
    pending during.1 = Some (List.last rest.*2 P1, clock during.1)
    ∧ remote_writes during.2 = []
    ∧ local_writes options during.2 = payloads).
  { unfold during. rewrite autosave_run_cons. cbn [handle]. rewrite save_unfold.
    cbn [state_of calls_of fst snd].
    set (s1 := set_pending _ _).
    destruct (run_burst rest P1 s1 eq_refl Hgaps) as (Hp & Hr & Hl).
    rewrite remote_writes_app, local_writes_app, Hr, Hl, Hp.
    split_and!; [done|done|]. simpl. by rewrite String.eqb_refl. }
  destruct Hduring as (Hp & Hr & Hl).
  assert (Hwhole :
    pending whole.1 = None
    ∧ remote_writes whole.2 = [List.last rest.*2 P1]
    ∧ local_writes options whole.2 = payloads).
  { unfold whole. rewrite app_comm_cons, autosave_run_app. fold during.
    rewrite autosave_run_cons, elapse_unfold, Hp.
    destruct (Z.leb_spec (clock during.1 + wait options)
                (clock during.1 + Z.of_N D)); [|lia].
    cbn [state_of calls_of fst snd run].
    rewrite remote_writes_app, local_writes_app, Hr, Hl.
    split_and!; [done|done|]. simpl. by rewrite app_nil_r. }
  destruct Hwhole as (Hp' & Hr' & Hl').
  split_and!; try done.
  rewrite Hl'. unfold payloads. simpl. by rewrite length_fmap.
Qed.

(** C1, as the code has it. [forceSave] cancels the pending debounced
    call and calls the remote write at once. Whatever the remote write
    settles with, the promise of [forceSave] is fulfilled: a rejection is
    caught inside [saveToServer], which records its message in [error]
    and logs it; it does not reach the caller of [forceSave]. *)
Theorem forceSave_reports_through_state payload outcome s :
  fresh_ids s = true →
  let started := forceSave payload s in
  let r := run options [ForceSave payload; Settle (issued s) outcome] s in
  calls_of started = [DebounceCancel; OnSave (issued s) payload]
  ∧ pending (state_of started) = None
  ∧ (∀ e, outcome = Abrupt e →
          r.2 = [DebounceCancel; OnSave (issued s) payload; ConsoleError e;
                 ForceSaveSettled (issued s) (Normal ())]
          ∧ error r.1 = Some (failure_message e))
  ∧ (outcome = Normal () →
     r.2 = [DebounceCancel; OnSave (issued s) payload;
            RemoveItem (backupKey options);
            ForceSaveSettled (issued s) (Normal ())]
     ∧ error r.1 = None)
  ∧ ForceSaveSettled (issued s) (Normal ()) ∈ r.2
  ∧ (∀ e, ForceSaveSettled (issued s) (Abrupt e) ∉ r.2).
Proof.
  intros Hfresh started r.
  assert (Hr : r = run options [ForceSave payload; Settle (issued s) outcome] s)
    by done.
  rewrite autosave_run_cons in Hr. cbn [handle] in Hr.
  rewrite forceSave_unfold in Hr.
  cbn [state_of calls_of fst snd] in Hr. rewrite autosave_run_cons in Hr.
  cbn [handle] in Hr. unfold settle, bind, gets in Hr.
  cbn [inflight issued set_inflight] in Hr.
  rewrite (origin_of_fresh _ _ _ Hfresh) in Hr.
  unfold forceSave_resume, modify in Hr.
  destruct outcome as [[]|e].
  - rewrite saveToServer_resume_resolved in Hr. simpl in Hr. rewrite Hr.
    split_and!; try done.
    + simpl. set_solver.
    + intros e. simpl. set_solver.
  - rewrite saveToServer_resume_rejected in Hr. simpl in Hr. rewrite Hr.
    split_and!; try done.
    + intros e' [= <-]. done.
    + simpl. set_solver.
    + intros e'. simpl. set_solver.
Qed.

(** C6. When the promise of a remote write is rejected, [error] becomes
    the message of the failure, [isSaving] goes back to false,
    [hasUnsavedChanges] is left as it was (so still true when it was
    true), [localStorage] and with it the backup are untouched, the
    debounced function is untouched and no remote write is made. In
    particular a [save] whose debounced write fails leaves
    [hasUnsavedChanges] true and its backup in place. *)
Theorem remote_failure_keeps_backup req who e s :
  origin_of req (inflight s) = Some who →
  let r := handle options (Settle req (Abrupt e)) s in
  error (state_of r) = Some (failure_message e)
  ∧ isSaving (state_of r) = false
  ∧ hasUnsavedChanges (state_of r) = hasUnsavedChanges s
  ∧ (hasUnsavedChanges s = true → hasUnsavedChanges (state_of r) = true)
  ∧ localStorage (state_of r) = localStorage s
  ∧ getBackup options (state_of r) = getBackup options s
  ∧ pending (state_of r) = pending s
  ∧ remote_writes (calls_of r) = []
  ∧ (∀ P D s0,
       fresh_ids s0 = true →
       wait options ≤ Z.of_N D →
       let r0 := run options
                   [Save P; Elapse D; Settle (issued s0) (Abrupt e)] s0 in
       hasUnsavedChanges r0.1 = true
       ∧ getBackup options r0.1 = Some {| lines := P; timestamp := clock s0 |}
       ∧ error r0.1 = Some (failure_message e)
       ∧ remote_writes r0.2 = [P]).
Proof.
  intros Hreq r.
  assert (Hr : r = (setIsSaving false
                      (setError (Some (failure_message e))
                         (set_inflight (forget req (inflight s)) (issued s) s)),
                    match who with
                    | FromDebounce => [ConsoleError e]
                    | FromForceSave =>
                        [ConsoleError e; ForceSaveSettled req (Normal ())]
                    end,
                    Normal ())).
  { unfold r. cbn [handle]. unfold settle, bind, gets, modify. rewrite Hreq.
    unfold forceSave_resume. destruct who;
      rewrite saveToServer_resume_rejected; done. }
  rewrite Hr. cbn [state_of calls_of fst snd].
  split_and!; try done.
  - by destruct who.
  - intros P D s0 Hfresh HD.
    rewrite autosave_run_cons. cbn [handle]. rewrite save_unfold.
    cbn [state_of calls_of fst snd]. rewrite autosave_run_cons, elapse_unfold.
    cbn [pending set_pending clock setHasUnsavedChanges set_localStorage].
    destruct (Z.leb_spec (clock s0 + wait options) (clock s0 + Z.of_N D));
      [|lia].
    cbn [state_of calls_of fst snd]. rewrite autosave_run_cons. cbn [handle].
    unfold settle, bind, gets, modify.
    cbn [inflight issued set_inflight setError setIsSaving set_pending
         set_clock setHasUnsavedChanges set_localStorage].
    rewrite (origin_of_fresh _ _ _ Hfresh).
    rewrite saveToServer_resume_rejected. simpl.
    unfold getBackup. simpl. rewrite lookup_insert_eq. simpl. done.
Qed.

(** C9. Right after [save P], in whatever state the hook is (idle or
    with writes in flight), the backup read by [getBackup] holds [P];
    and right after a remote write is confirmed, whether it was started
    by the debounced function or by [forceSave], [getBackup] returns
    null: for any write in flight, and in particular for a [save]
    whose debounced write is confirmed and for a [forceSave] that is
    confirmed. *)
Theorem backup_round_trip P s :
  getBackup options (state_of (save options P s))
  = Some {| lines := P; timestamp := clock s |}
  ∧ lines <$> getBackup options (state_of (save options P s)) = Some P
  ∧ (∀ req who s',
       origin_of req (inflight s') = Some who →
       getBackup options
         (state_of (handle options (Settle req (Normal ())) s'))
       = None
       ∧ RemoveItem (backupKey options)
         ∈ calls_of (handle options (Settle req (Normal ())) s'))
  ∧ (∀ D,
       fresh_ids s = true →
       wait options ≤ Z.of_N D →
       getBackup options
         (run options [Save P; Elapse D; Settle (issued s) (Normal ())] s).1
       = None)
  ∧ (fresh_ids s = true →
     getBackup options
       (run options [ForceSave P; Settle (issued s) (Normal ())] s).1
     = None).
Proof.
  assert (Hsave : getBackup options (state_of (save options P s))
                  = Some {| lines := P; timestamp := clock s |}).
  { rewrite save_unfold. unfold getBackup. simpl.
    by rewrite lookup_insert_eq. }
  assert (Hsettle : ∀ req who s',
    origin_of req (inflight s') = Some who →
    getBackup options
      (state_of (handle options (Settle req (Normal ())) s'))
    = None
    ∧ RemoveItem (backupKey options)
      ∈ calls_of (handle options (Settle req (Normal ())) s')).
  { intros req who s' Hreq.
    cbn [handle]. unfold settle, bind, gets, modify. rewrite Hreq.
    unfold forceSave_resume.
    destruct who; rewrite saveToServer_resume_resolved; simpl;
      (split; [unfold getBackup; simpl; by rewrite lookup_delete_eq
              |set_solver]). }
  split_and!; [done|by rewrite Hsave|done| |].
  - intros D Hfresh HD.
    rewrite autosave_run_cons. cbn [handle]. rewrite save_unfold.
    cbn [state_of calls_of fst snd]. rewrite autosave_run_cons, elapse_unfold.
    cbn [pending set_pending clock setHasUnsavedChanges set_localStorage].
    destruct (Z.leb_spec (clock s + wait options) (clock s + Z.of_N D));
      [|lia].
    cbn [state_of calls_of fst snd].
    match goal with
    | |- getBackup _ (run _ _ ?st).1 = None => set (s1 := st)
    end.
    rewrite autosave_run_cons. cbn [run fst].
    refine (proj1 (Hsettle (issued s) FromDebounce s1 _)).
    exact (origin_of_fresh _ _ _ Hfresh).
  - intros Hfresh.
    rewrite autosave_run_cons. cbn [handle]. rewrite forceSave_unfold.
    cbn [state_of calls_of fst snd].
    match goal with
    | |- getBackup _ (run _ _ ?st).1 = None => set (s1 := st)
    end.
    rewrite autosave_run_cons. cbn [run fst].
    refine (proj1 (Hsettle (issued s) FromForceSave s1 _)).
    exact (origin_of_fresh _ _ _ Hfresh).
Qed.

End Hook.

Lemma burst_coalesces_witness :
  let P1 := [line 1 "a"] in
  let P2 := [line 1 "ab"] in
  let P3 := [line 1 "abc"] in
  let evs := [Save P1; Elapse 500; Save P2; Elapse 2999; Save P3;
              Elapse 3000] in
  remote_writes (run page7 evs initial).2 = [P3]
  ∧ local_writes page7 (run page7 evs initial).2 = [P1; P2; P3].
Proof.
  intros P1 P2 P3 evs.
  destruct (burst_coalesces page7 P1 [(500%N, P2); (2999%N, P3)] 3000%N
              initial eq_refl) as (_ & _ & Hr & Hl & _).
  - vm_compute. discriminate.
  - split; [exact Hr|exact Hl].
Defined.

Lemma forceSave_reports_through_state_witness :
  let P := [line 1 "shalom"] in
  let r := run page7 [ForceSave P; Settle 0 (Normal ())] initial in
  ForceSaveSettled 0 (Normal ()) ∈ r.2.
Proof.
  intros P r.
  destruct (forceSave_reports_through_state page7 P (Normal ()) initial
              eq_refl) as (_ & _ & _ & _ & Hin & _).
  exact Hin.
Defined.

(** C1 as stated fails: the remote write is rejected and the promise of
    [forceSave] is fulfilled all the same; the failure shows in [error]
    only. *)
Lemma forceSave_propagates_counterexample :
  let P := [line 1 "shalom"] in
  let boom := ErrorObject "Error" "Network Error" in
  let r := run page7 [ForceSave P; Settle 0 (Abrupt boom)] initial in
  r.2 = [DebounceCancel; OnSave 0 P; ConsoleError boom;
         ForceSaveSettled 0 (Normal ())]
  ∧ error r.1 = Some "Network Error".
Proof. done. Qed.

Lemma remote_failure_keeps_backup_witness :
  let P := [line 1 "shalom"] in
  let boom := ErrorObject "Error" "Network Error" in
  let s := (run page7 [Save P; Elapse 3000] initial).1 in
  let r := handle page7 (Settle 0 (Abrupt boom)) s in
  error (state_of r) = Some "Network Error"
  ∧ hasUnsavedChanges (state_of r) = true
  ∧ getBackup page7 (state_of r) = Some {| lines := P; timestamp := 0 |}.
Proof.
  intros P boom s r.
  destruct (remote_failure_keeps_backup page7 0%nat FromDebounce boom s
              eq_refl) as (He & _ & _ & Hu & _ & Hb & _).
  split_and!; [exact He|exact (Hu eq_refl)|].
  etransitivity; [exact Hb|]. vm_compute. reflexivity.
Defined.

Lemma backup_round_trip_witness :
  let P := [line 1 "shalom"] in
  let s := (run page7 [Save P; ForceSave P] initial).1 in
  lines <$> getBackup page7 (state_of (save page7 P initial)) = Some P
  ∧ getBackup page7 (state_of (handle page7 (Settle 0 (Normal ())) s))
    = None
  ∧ getBackup page7
      (run page7 [Save P; Elapse 3000; Settle 0 (Normal ())] initial).1
    = None
  ∧ getBackup page7
      (run page7 [ForceSave P; Settle 0 (Normal ())] initial).1
    = None.
Proof.
  intros P s.
  destruct (backup_round_trip page7 P initial)
    as (_ & Hs & Hn & Hd & Hf).
  split_and!.
  - exact Hs.
  - exact (proj1 (Hn 0%nat FromForceSave s eq_refl)).
  - apply (Hd 3000%N eq_refl). vm_compute. discriminate.
  - exact (Hf eq_refl).
Defined.

(** The backup key of page 7, and a backup that is lost: a confirmed
    write of an older payload removes the backup of a newer one. *)
Example backupKey_page7 : backupKey page7 = "maatik_backup_7".
Proof. reflexivity. Qed.

Example confirmed_write_removes_newer_backup :
  let P1 := [line 1 "a"] in
  let P2 := [line 1 "ab"] in
  let evs := [Save P1; Elapse 3000; Save P2; Settle 0 (Normal ())] in
  let r := run page7 evs initial in
  getBackup page7 r.1 = None
  ∧ pending r.1 = Some (P2, 3000)
  ∧ hasUnsavedChanges r.1 = false.
Proof. vm_compute. done. Qed.

End AutoSaveProps.

(** ** Range selection: further properties *)

Module RangeSelectionMore.
Import RangeSelection RangeSelectionReplay RangeSelectionProps.

Section WithIds.
Context `{Countable TId}.
Implicit Types (l orderedIds : list TId) (x id a : TId).

(** X1. A range click selects the anchor and the clicked id themselves,
    and nothing that is not in the ordered sequence. *)
Theorem range_click_spans_endpoints orderedIds prev a id ev :
  shiftKey ev = true →
  anchorId prev = Some a →
  a ∈ orderedIds →
  id ∈ orderedIds →
  let next := onItemClick orderedIds id ev prev in
  a ∈ selectedIds next
  ∧ id ∈ selectedIds next
  ∧ (∀ x, x ∈ selectedIds next → x ∈ orderedIds).
Proof.
  intros Hs Ha Hina Hinid next. unfold next.
  rewrite (onItemClick_range orderedIds prev a id ev Hs Ha Hina Hinid).
  cbn [selectedIds].
  destruct (indexOf_present _ _ Hina) as [Hi Hia].
  destruct (indexOf_present _ _ Hinid) as [Hj Hjid].
  split_and!.
  - apply elem_of_add_range. exists (indexOf orderedIds a). split; [lia|done].
  - apply elem_of_add_range. exists (indexOf orderedIds id). split; [lia|done].
  - intros x Hx. apply elem_of_add_range in Hx as (k & _ & Hk).
    apply list_elem_of_lookup. by exists (Z.to_nat k).
Qed.

(** X2. A range is extended from the anchor, not from the last click:
    after a shift-click on [id1], a shift-click on [id2] gives the state
    that the shift-click on [id2] alone would have given. *)
Theorem range_click_extends_from_anchor orderedIds prev a id1 id2 ev1 ev2 :
  shiftKey ev1 = true →
  shiftKey ev2 = true →
  anchorId prev = Some a →
  a ∈ orderedIds →
  id1 ∈ orderedIds →
  onItemClick orderedIds id2 ev2 (onItemClick orderedIds id1 ev1 prev)
  = onItemClick orderedIds id2 ev2 prev.
Proof.
  intros Hs1 Hs2 Ha Hina Hin1.
  rewrite (onItemClick_range orderedIds prev a id1 ev1 Hs1 Ha Hina Hin1).
  unfold onItemClick. cbn [anchorId selectedIds]. by rewrite Ha, Hs2.
Qed.

Lemma slice_length l lo hi :
  0 ≤ lo → lo ≤ hi → hi < Z.of_nat (length l) →
  length (slice l lo hi) = Z.to_nat (hi - lo + 1).
Proof.
  intros Hlo Hle Hhi. unfold slice. rewrite length_take, length_drop. lia.
Qed.

Lemma slice_NoDup l lo hi : NoDup l → NoDup (slice l lo hi).
Proof.
  intros Hl. unfold slice.
  apply (sublist_NoDup _ l); [exact Hl|].
  etransitivity; [apply sublist_take|apply sublist_drop].
Qed.

(** X3. In a sequence without repeated ids, a range click between
    positions [i] and [j] selects [|i - j| + 1] items. *)
Theorem range_click_size orderedIds prev a id ev :
  NoDup orderedIds →
  shiftKey ev = true →
  anchorId prev = Some a →
  a ∈ orderedIds →
  id ∈ orderedIds →
  Z.of_nat (size (selectedIds (onItemClick orderedIds id ev prev)))
  = Z.abs (indexOf orderedIds a - indexOf orderedIds id) + 1.
Proof.
  intros Hnd Hs Ha Hina Hinid.
  rewrite (onItemClick_range orderedIds prev a id ev Hs Ha Hina Hinid).
  cbn [selectedIds].
  destruct (indexOf_present _ _ Hina) as [Hi _].
  destruct (indexOf_present _ _ Hinid) as [Hj _].
  rewrite add_range_slice by lia.
  rewrite size_list_to_set by (by apply slice_NoDup).
  rewrite slice_length by lia. lia.
Qed.

(** One click on a row of the list keeps the selection and the anchor
    among the rows of the list. *)
Lemma onItemClick_within orderedIds id ev st :
  id ∈ orderedIds →
  within orderedIds st →
  within orderedIds (onItemClick orderedIds id ev st).
Proof.
  intros Hid [Hsel Hanc].
  assert (Hplain : within orderedIds
                     {| selectedIds := {[id]}; anchorId := Some id |}).
  { split; cbn [selectedIds anchorId].
    - intros x Hx. by apply elem_of_singleton in Hx as ->.
    - by intros a [= <-]. }
  assert (Hrest : within orderedIds
    (if metaKey ev || ctrlKey ev
     then {| selectedIds :=
               if decide (id ∈ selectedIds st)
               then selectedIds st ∖ {[id]}
               else selectedIds st ∪ {[id]};
             anchorId := anchorId st |}
     else {| selectedIds := {[id]}; anchorId := Some id |})).
  { destruct (metaKey ev || ctrlKey ev); [|done].
    split; cbn [selectedIds anchorId]; [|done].
    intros x Hx. destruct (decide (id ∈ selectedIds st)).
    - apply elem_of_difference in Hx as [Hx _]. by apply Hsel.
    - apply elem_of_union in Hx as [Hx|Hx]; [by apply Hsel|].
      by apply elem_of_singleton in Hx as ->. }
  unfold onItemClick. cbv zeta.
  destruct (anchorId st) as [a|] eqn:Ha; [|exact Hrest].
  destruct (shiftKey ev); [|exact Hrest].
  destruct ((indexOf orderedIds a =? -1) || (indexOf orderedIds id =? -1));
    [exact Hplain|].
  destruct (indexOf orderedIds a <? indexOf orderedIds id);
    split; cbn [selectedIds anchorId];
    try (intros a' [= <-]; by apply Hanc);
    intros x Hx; apply elem_of_add_range in Hx as (k & _ & Hk);
    apply list_elem_of_lookup; by exists (Z.to_nat k).
Qed.

(** X4. Whatever rows of a list are clicked, with whatever modifiers,
    starting from an empty selection: every selected id and the anchor
    are rows of the list. *)
Theorem replay_stays_within orderedIds clicks :
  Forall (λ c : TId * MouseEvent, c.1 ∈ orderedIds) clicks →
  within orderedIds (replay orderedIds clicks empty_selection).
Proof.
  intros Hclicks.
  assert (Hgen : ∀ st, within orderedIds st →
                       within orderedIds (replay orderedIds clicks st)).
  { induction Hclicks as [|c clicks Hc _ IH]; intros st Hst; [done|].
    cbn [replay foldl]. apply IH. by apply onItemClick_within. }
  apply Hgen. split; cbn [selectedIds anchorId empty_selection].
  - intros x Hx. by apply not_elem_of_empty in Hx.
  - done.
Qed.

End WithIds.

Lemma range_click_spans_endpoints_witness :
  let prev : RangeSelectionState Z :=
    {| selectedIds := {[40]}; anchorId := Some 40 |} in
  let next := onItemClick [10; 20; 30; 40] 20 range_click prev in
  40 ∈ selectedIds next ∧ 20 ∈ selectedIds next.
Proof.
  intros prev next.
  destruct (range_click_spans_endpoints [10; 20; 30; 40] prev 40 20
              range_click eq_refl eq_refl) as (Ha & Hid & _).
  - set_solver.
  - set_solver.
  - split; [exact Ha|exact Hid].
Defined.

Lemma range_click_extends_from_anchor_witness :
  let prev : RangeSelectionState Z :=
    {| selectedIds := {[20]}; anchorId := Some 20 |} in
  onItemClick [10; 20; 30; 40] 10 range_click
    (onItemClick [10; 20; 30; 40] 40 range_click prev)
  = onItemClick [10; 20; 30; 40] 10 range_click prev.
Proof.
  intros prev.
  apply (range_click_extends_from_anchor [10; 20; 30; 40] prev 20 40 10
           range_click range_click eq_refl eq_refl eq_refl).
  - set_solver.
  - set_solver.
Defined.

Lemma range_click_size_witness :
  let prev : RangeSelectionState Z :=
    {| selectedIds := {[20]}; anchorId := Some 20 |} in
  Z.of_nat (size (selectedIds (onItemClick [10; 20; 30; 40] 40
                                 range_click prev)))
  = 3.
Proof.
  intros prev.
  refine (range_click_size [10; 20; 30; 40] prev 20 40 range_click
            _ eq_refl eq_refl _ _).
  - repeat (apply NoDup_cons; split; [set_solver|]). apply NoDup_nil_2.
  - set_solver.
  - set_solver.
Defined.

Lemma replay_stays_within_witness :
  within [1; 2; 3]
    (replay [1; 2; 3]
       [(2, plain_click); (3, toggle_click); (1, range_click)]
       (empty_selection : RangeSelectionState Z)).
Proof.
  apply (replay_stays_within [1; 2; 3]).
  repeat (apply Forall_cons; split; [simpl; set_solver|]).
  apply Forall_nil_2.
Defined.

End RangeSelectionMore.

(** ** Task-progress socket: further properties *)

Module TaskSocketMore.
Import Js Types TaskSocket TaskSocketTrace TaskSocketProps.

Section Hook.
Variable taskId : option string.
Variable options : UseWebSocketOptions.

Lemma connect_unfold s :
  connect taskId s
  = match taskId with
    | Some tid =>
        if String.eqb tid "" then (s, [], Normal ())
        else (setStatus connecting (set_wsRef (sockets s) s),
              [NewWebSocket (sockets s) tid], Normal ())
    | None => (s, [], Normal ())
    end.
Proof.
  unfold connect. destruct taskId as [tid|]; [|done].
  by destruct (String.eqb tid "").
Qed.

Lemma cleanup_unfold s :
  cleanup s
  = (s, match wsRef s with Some ws => [WsClose ws] | None => [] end,
     Normal ()).
Proof. unfold cleanup, bind, gets. simpl. by destruct (wsRef s). Qed.

Lemma onerror_unfold s :
  onerror options s
  = (s, if onError options then [CallOnError] else [], Normal ()).
Proof. unfold onerror, when. by destruct (onError options). Qed.


Lemma delivered_app w1 w2 :
  delivered (w1 ++ w2) = delivered w1 ++ delivered w2.
Proof. apply omap_app. Qed.


(** Between opens a handler either leaves the attempt counter alone and
    schedules nothing, or counts one attempt below [maxAttempts] and
    schedules one reconnection. *)
Lemma dispatch_counts ev s :
  is_open ev = false →
  let r := dispatch taskId options ev s in
  (attemptsRef (state_of r) = attemptsRef s ∧ scheduled (calls_of r) = [])
  ∨ (attemptsRef s < maxAttempts options
     ∧ attemptsRef (state_of r) = attemptsRef s + 1
     ∧ length (scheduled (calls_of r)) = 1%nat).
Proof.
  destruct ev as [| |ws [d|raw]| | |]; cbn [dispatch is_open]; try done;
    intros _.
  - left. rewrite connect_unfold. destruct taskId as [tid|]; [|done].
    by destruct (String.eqb tid "").
  - left. rewrite onmessage_unfold. unfold calls_of. cbn [fst snd].
    rewrite scheduled_app.
    by destruct (onMessage options), (is_terminal (Types.status d)).
  - by left.
  - left. rewrite onerror_unfold. by destruct (onError options).
  - rewrite onclose_unfold.
    destruct (ref_not_terminal (taskStatusRef s)); [|by left].
    destruct (Z.ltb_spec (attemptsRef s) (maxAttempts options)).
    + right. done.
    + by left.
  - left. rewrite cleanup_unfold. by destruct (wsRef s).
Qed.

(** X6. Retries are bounded: as long as the connection does not open,
    the attempt counter counts the reconnections scheduled and never
    passes [maxAttempts], whatever else happens (snapshots, malformed
    messages, errors, timers). *)
Theorem retries_bounded evs s :
  forallb (λ ev, negb (is_open ev)) evs = true →
  let r := run_events taskId options evs s in
  Z.of_nat (length (scheduled (calls r)))
  = attemptsRef (final r) - attemptsRef s
  ∧ attemptsRef (final r) ≤ Z.max (attemptsRef s) (maxAttempts options)
  ∧ (attemptsRef s = 0 →
     Z.of_nat (length (scheduled (calls r)))
     ≤ Z.max 0 (maxAttempts options)).
Proof.
  intros Hevs r.
  assert (Hgen : Z.of_nat (length (scheduled (calls r)))
                 = attemptsRef (final r) - attemptsRef s
                 ∧ attemptsRef (final r)
                   ≤ Z.max (attemptsRef s) (maxAttempts options)).
  { unfold r. clear r. revert s Hevs.
    induction evs as [|ev evs IH]; intros s Hevs.
    - cbn. lia.
    - cbn [forallb] in Hevs. apply andb_true_iff in Hevs as [Hev Hevs].
      apply negb_true_iff in Hev.
      pose proof (dispatch_counts ev s Hev) as Hstep.
      rewrite socket_run_cons.
      destruct (dispatch taskId options ev s) as [[s1 w1] c].
      unfold state_of, calls_of in Hstep. cbn [fst snd] in Hstep.
      destruct (IH s1 Hevs) as [IHn IHa].
      cbn [final calls]. rewrite scheduled_app, length_app.
      destruct Hstep as [[Ha Hq]|(Hlt & Ha & Hq)].
      + rewrite Hq. cbn [length]. lia.
      + rewrite Hq. lia. }
  destruct Hgen as [Hn Ha]. split_and!; [done|done|].
  intros H0. rewrite H0 in Hn, Ha. lia.
Qed.

(** X7. An open restarts the back-off: after it, closes with the last
    known status not terminal are answered with [interval], then twice
    that, and so on, whatever the counter was before. *)
Theorem open_restarts_backoff evs s :
  ref_not_terminal (taskStatusRef s) = true →
  forallb keeps_retrying evs = true →
  let r := run_events taskId options (Opened :: evs) s in
  scheduled (calls r)
  = backoff_delays options 0
      (Z.min (closes evs) (Z.max 0 (maxAttempts options)))
  ∧ attemptsRef (final r)
    = Z.min (closes evs) (Z.max 0 (maxAttempts options)).
Proof.
  intros Hlive Hevs r. unfold r. rewrite socket_run_cons.
  cbn [dispatch]. unfold onopen, bind, modify. cbn [fst snd].
  set (s1 := set_attemptsRef 0 (setStatus open s)).
  destruct (run_retrying taskId options evs s1 Hlive Hevs) as (Ha & _ & Hq).
  cbn [final calls app]. rewrite Hq, Ha. done.
Qed.

(** Handlers other than [onerror] never call [onError]. *)
Lemma dispatch_no_onError ev s :
  is_error ev = false →
  List.filter (λ c, negb (is_onError_call c))
    (calls_of (dispatch taskId options ev s))
  = calls_of (dispatch taskId options ev s).
Proof.
  destruct ev as [| |ws [d|raw]| | |]; cbn [dispatch is_error]; try done;
    intros _.
  - rewrite connect_unfold. destruct taskId as [tid|]; [|done].
    by destruct (String.eqb tid "").
  - rewrite onmessage_unfold. unfold calls_of. cbn [fst snd].
    by destruct (onMessage options), (is_terminal (Types.status d)).
  - rewrite onclose_unfold. by destruct (_ && _).
  - rewrite cleanup_unfold. by destruct (wsRef s).
Qed.

(** X8. Transport errors do not drive the state machine: taking the
    error events out of a sequence of events changes neither the final
    state nor the calls made, the calls of [onError] apart. *)
Theorem error_events_are_inert evs s :
  let r := run_events taskId options evs s in
  let r' := run_events taskId options
              (List.filter (λ ev, negb (is_error ev)) evs) s in
  final r = final r'
  ∧ List.filter (λ c, negb (is_onError_call c)) (calls r) = calls r'
  ∧ uncaught r = uncaught r'.
Proof.
  revert s. induction evs as [|ev evs IH]; intros s; [done|].
  cbn [List.filter]. destruct (is_error ev) eqn:Herr; cbn [negb].
  - destruct ev; try discriminate Herr.
    rewrite socket_run_cons. cbn [dispatch]. rewrite onerror_unfold.
    destruct (IH s) as (IHf & IHc & IHu).
    cbn [final calls uncaught]. rewrite List.filter_app, IHc, IHf, IHu.
    by destruct (onError options).
  - rewrite !socket_run_cons.
    pose proof (dispatch_no_onError ev s Herr) as Hno.
    destruct (dispatch taskId options ev s) as [[s1 w1] c].
    unfold calls_of in Hno. cbn [fst snd] in Hno.
    destruct (IH s1) as (IHf & IHc & IHu).
    cbn [final calls uncaught]. rewrite List.filter_app, IHc, IHf, IHu, Hno.
    done.
Qed.

(** X9. When every message is either the JSON of a Task snapshot or not
    JSON at all (the two kinds of message data of this development; a
    message that is JSON of another shape, such as [null], is outside
    it): the task data is the latest snapshot received, the status cell
    holds its status, and the caller's [onMessage], when supplied, has
    been handed every snapshot once and in order, and no message that
    is not JSON. *)
Theorem latest_snapshot_wins evs s :
  let r := run_events taskId options evs s in
  taskData (final r)
  = match last (snapshots evs) with
    | Some d => Some d
    | None => taskData s
    end
  ∧ taskStatusRef (final r)
    = match last (snapshots evs) with
      | Some d => Some (Types.status d)
      | None => taskStatusRef s
      end
  ∧ delivered (calls r) = if onMessage options then snapshots evs else [].
Proof.
  revert s. induction evs as [|ev evs IH]; intros s.
  - cbn. by destruct (onMessage options).
  - rewrite socket_run_cons.
    destruct (decide (is_message ev = true)) as [Hm|Hm].
    + destruct ev as [| |ws [d|raw]| | |]; try discriminate Hm.
      * cbn [dispatch]. rewrite onmessage_unfold.
        set (s1 := set_taskStatusRef _ _).
        destruct (IH s1) as (IHd & IHr & IHc).
        change (snapshots (MessageOn ws (Encodes d) :: evs))
          with (d :: snapshots evs).
        cbn [final calls].
        rewrite !delivered_app, IHc, IHd, IHr, last_cons.
        split_and!.
        -- by destruct (last (snapshots evs)).
        -- by destruct (last (snapshots evs)).
        -- by destruct (onMessage options),
                (is_terminal (Types.status d)).
      * cbn [dispatch]. rewrite onmessage_malformed.
        destruct (IH s) as (IHd & IHr & IHc).
        change (snapshots (MessageOn ws (Malformed raw) :: evs))
          with (snapshots evs).
        cbn [final calls app]. done.
    + apply not_true_is_false in Hm.
      pose proof (handle_keeps_snapshot taskId options ev s Hm) as [Hd Hr].
      assert (Hnone : delivered (calls_of (dispatch taskId options ev s)) = []
                      ∧ snapshots (ev :: evs) = snapshots evs).
      { destruct ev as [| |ws raw| | |]; try discriminate Hm;
          cbn [dispatch]; (split; [|done]).
        - rewrite connect_unfold. destruct taskId as [tid|]; [|done].
          by destruct (String.eqb tid "").
        - done.
        - rewrite onerror_unfold. by destruct (onError options).
        - rewrite onclose_unfold. by destruct (_ && _).
        - rewrite cleanup_unfold. by destruct (wsRef s). }
      destruct Hnone as [Hnone Hsnap].
      destruct (dispatch taskId options ev s) as [[s1 w1] c].
      unfold state_of, calls_of in Hd, Hr, Hnone. cbn [fst snd] in *.
      destruct (IH s1) as (IHd & IHr & IHc).
      cbn [final calls]. rewrite delivered_app, Hnone, IHc, IHd, IHr, Hsnap.
      rewrite Hd, Hr. by destruct (onMessage options).
Qed.

End Hook.


Lemma retries_bounded_witness :
  let evs := [Closed; MessageOn 0 (Malformed "{"); Closed; Errored; Closed;
              Closed; Closed; Closed; Closed; Closed] in
  Z.of_nat (length (scheduled
                      (calls (run_events (Some "t1") default_options evs
                                socket_initial))))
  ≤ 5.
Proof.
  intros evs.
  exact (proj2 (proj2 (retries_bounded (Some "t1") default_options evs
                         socket_initial eq_refl)) eq_refl).
Defined.

Lemma open_restarts_backoff_witness :
  let s := final (run_events (Some "t1") default_options
                    [Closed; Closed; Closed] socket_initial) in
  attemptsRef s = 3
  ∧ scheduled (calls (run_events (Some "t1") default_options
                        [Opened; Closed; Closed] s))
    = [2000; 4000].
Proof.
  intros s. split; [reflexivity|].
  exact (proj1 (open_restarts_backoff (Some "t1") default_options
                  [Closed; Closed] s eq_refl eq_refl)).
Defined.

End TaskSocketMore.

(** ** Task polling *)

Module TaskPollingProps.
Import Js Types TaskPolling.

Lemma poll_unfold tid s :
  poll tid s
  = if cancelled s then (s, [], Normal ())
    else (set_requests (S (requests s)) s, [GetTaskStatus tid], Normal ()).
Proof. unfold poll, bind, gets. simpl. by destruct (cancelled s). Qed.

Lemma poll_resume_unfold outcome s :
  poll_resume outcome s
  = match outcome with
    | Normal d =>
        if cancelled s then (s, [], Normal ())
        else if keeps_polling (Normal d) then
          (set_timers (timers s ++ [2000]) (setPolledTask (Some d) s),
           [SetTimeoutPoll 2000], Normal ())
        else (setIsPolling false (setPolledTask (Some d) s), [], Normal ())
    | Abrupt e =>
        if cancelled s then (s, [PollConsoleError e], Normal ())
        else (set_timers (timers s ++ [5000]) s,
              [PollConsoleError e; SetTimeoutPoll 5000], Normal ())
    end.
Proof.
  unfold poll_resume, try_catch, bind, gets, await, keeps_polling.
  destruct outcome as [d|e]; simpl.
  - destruct (cancelled s); [done|].
    by destruct (negb (String.eqb (status d) "completed")
                 && negb (String.eqb (status d) "failed")).
  - by destruct (cancelled s).
Qed.

Lemma poll_run_cons taskId ev evs s :
  poll_run taskId (ev :: evs) s
  = ((poll_run taskId evs (state_of (poll_dispatch taskId ev s))).1,
     calls_of (poll_dispatch taskId ev s)
     ++ (poll_run taskId evs (state_of (poll_dispatch taskId ev s))).2).
Proof.
  simpl. destruct (poll_dispatch taskId ev s) as [[s1 w1] c].
  unfold state_of, calls_of. simpl. by destruct (poll_run taskId evs s1).
Qed.

Lemma fetches_app w1 w2 : fetches (w1 ++ w2) = fetches w1 ++ fetches w2.
Proof. apply omap_app. Qed.

Lemma poll_delays_app w1 w2 :
  poll_delays (w1 ++ w2) = poll_delays w1 ++ poll_delays w2.
Proof. apply omap_app. Qed.

(** What a timer or a response does to the state, case by case. *)
Lemma timer_unfold tid s :
  poll_dispatch (Some tid) TimerFires s
  = match timers s with
    | _ :: rest =>
        if cancelled s then (set_timers rest s, [], Normal ())
        else (set_requests (S (requests s)) (set_timers rest s),
              [GetTaskStatus tid], Normal ())
    | [] => (s, [], Normal ())
    end.
Proof.
  unfold poll_dispatch, bind, gets, modify. simpl.
  destruct (timers s) as [|d rest]; [done|].
  rewrite poll_unfold. simpl. by destruct (cancelled s).
Qed.

Lemma response_unfold taskId outcome s :
  poll_dispatch taskId (Responds outcome) s
  = match requests s with
    | S n =>
        let '(s1, w1, c) := poll_resume outcome (set_requests n s) in
        (s1, w1, c)
    | O => (s, [], Normal ())
    end.
Proof.
  unfold poll_dispatch, bind, gets, modify. simpl.
  destruct (requests s) as [|n]; [done|].
  by destruct (poll_resume outcome (set_requests n s)) as [[s1 w1] c].
Qed.

Lemma mount_unfold tid s :
  String.eqb tid "" = false →
  poll_dispatch (Some tid) Mounts s
  = (set_requests (S (requests s)) (set_cancelled false (setIsPolling true s)),
     [GetTaskStatus tid], Normal ()).
Proof.
  intros Htid. unfold poll_dispatch, effect. rewrite Htid.
  unfold bind, modify. by rewrite poll_unfold.
Qed.

(** No event but the mount adds to what is outstanding. *)
Lemma dispatch_outstanding taskId ev s :
  is_mount ev = false →
  (outstanding (state_of (poll_dispatch taskId ev s)) ≤ outstanding s)%nat.
Proof.
  destruct ev as [| |outcome|]; try discriminate; intros _.
  - destruct taskId as [tid|];
      [|unfold poll_dispatch, bind, gets; simpl; by destruct (timers s)].
    rewrite timer_unfold. unfold outstanding.
    destruct (timers s) as [|d rest] eqn:Ht.
    + unfold state_of. cbn [fst]. by rewrite Ht.
    + destruct (cancelled s); simpl; lia.
  - rewrite response_unfold. unfold outstanding, state_of.
    destruct (requests s) as [|n] eqn:Hn; [simpl; lia|].
    rewrite poll_resume_unfold.
    destruct outcome as [d|e]; simpl; destruct (cancelled s); simpl;
      try lia.
    + destruct (negb _ && negb _); simpl; rewrite ?length_app; simpl; lia.
    + rewrite length_app. simpl. lia.
  - unfold poll_dispatch, poll_cleanup. destruct taskId as [tid|]; [|done].
    by destruct (String.eqb tid "").
Qed.

(** X10. Requests never overlap: from the mount on, whatever the
    responses, the timers and the cleanup, the effect has at most one
    thing outstanding, a request in flight or a timer pending. *)
Theorem at_most_one_outstanding taskId evs :
  forallb (λ ev, negb (is_mount ev)) evs = true →
  let s := (poll_run taskId (Mounts :: evs) poll_initial).1 in
  (outstanding s ≤ 1)%nat ∧ (requests s ≤ 1)%nat.
Proof.
  intros Hevs s.
  assert (Hgen : ∀ s0, (outstanding (poll_run taskId evs s0).1
                        ≤ outstanding s0)%nat).
  { clear s. induction evs as [|ev evs IH]; intros s0; [done|].
    cbn [forallb] in Hevs. apply andb_true_iff in Hevs as [Hev Hevs].
    apply negb_true_iff in Hev.
    rewrite poll_run_cons. cbn [fst].
    etransitivity; [apply (IH Hevs)|].
    by apply dispatch_outstanding. }
  assert (Hs : (outstanding s ≤ 1)%nat).
  { unfold s. rewrite poll_run_cons. cbn [fst].
    etransitivity; [apply Hgen|].
    unfold poll_dispatch, effect. destruct taskId as [tid|]; [|cbv; lia].
    destruct (String.eqb tid ""); cbv; lia. }
  split; [done|]. unfold outstanding in Hs. lia.
Qed.

(** Once cancelled, nothing but a new mount changes the data, asks the
    server or sets a timer. *)
Lemma dispatch_cancelled taskId ev s :
  is_mount ev = false →
  cancelled s = true →
  isPolling s = false →
  let r := poll_dispatch taskId ev s in
  cancelled (state_of r) = true
  ∧ isPolling (state_of r) = false
  ∧ polledTask (state_of r) = polledTask s
  ∧ fetches (calls_of r) = []
  ∧ poll_delays (calls_of r) = [].
Proof.
  destruct ev as [| |outcome|]; try discriminate; intros _ Hc Hp.
  - destruct taskId as [tid|];
      [|unfold poll_dispatch, bind, gets; simpl; by destruct (timers s)].
    rewrite timer_unfold, Hc. by destruct (timers s).
  - rewrite response_unfold. destruct (requests s) as [|n]; [done|].
    rewrite poll_resume_unfold. cbn [cancelled set_requests]. rewrite Hc.
    by destruct outcome.
  - unfold poll_dispatch, poll_cleanup. destruct taskId as [tid|]; [|done].
    by destruct (String.eqb tid "").
Qed.

(** X11. Cancellation is final: after the cleanup of the effect (run
    for a task id that is set), late responses and timers change
    nothing: the task data stays, [isPolling] is false, no request is
    made and no timer is set. *)
Theorem cleanup_silences_polling tid evs s :
  String.eqb tid "" = false →
  forallb (λ ev, negb (is_mount ev)) evs = true →
  let r := poll_run (Some tid) (CleansUp :: evs) s in
  polledTask r.1 = polledTask s
  ∧ isPolling r.1 = false
  ∧ fetches r.2 = []
  ∧ poll_delays r.2 = [].
Proof.
  intros Htid Hevs r.
  assert (Hgen : ∀ s0, cancelled s0 = true → isPolling s0 = false →
            let r0 := poll_run (Some tid) evs s0 in
            polledTask r0.1 = polledTask s0
            ∧ isPolling r0.1 = false
            ∧ fetches r0.2 = []
            ∧ poll_delays r0.2 = []).
  { clear r s. induction evs as [|ev evs IH]; intros s0 Hc Hp; [done|].
    cbn [forallb] in Hevs. apply andb_true_iff in Hevs as [Hev Hevs].
    apply negb_true_iff in Hev.
    destruct (dispatch_cancelled (Some tid) ev s0 Hev Hc Hp)
      as (Hc1 & Hp1 & Hd1 & Hf1 & Ht1).
    rewrite poll_run_cons. cbn [fst snd].
    destruct (IH Hevs _ Hc1 Hp1) as (IHd & IHp & IHf & IHt).
    rewrite fetches_app, poll_delays_app, Hf1, Ht1, IHf, IHt, IHd, IHp, Hd1.
    done. }
  unfold r. rewrite poll_run_cons. cbn [fst snd].
  unfold poll_dispatch, poll_cleanup. rewrite Htid.
  unfold bind, modify. cbn [state_of calls_of fst snd app].
  apply (Hgen (setIsPolling false (set_cancelled true s))); done.
Qed.

(** With nothing outstanding and polling over, nothing but a new mount
    has any effect on the data or makes a call. *)
Lemma dispatch_idle taskId ev s :
  is_mount ev = false →
  outstanding s = 0%nat →
  isPolling s = false →
  let r := poll_dispatch taskId ev s in
  outstanding (state_of r) = 0%nat
  ∧ isPolling (state_of r) = false
  ∧ polledTask (state_of r) = polledTask s
  ∧ calls_of r = [].
Proof.
  unfold outstanding.
  destruct ev as [| |outcome|]; try discriminate; intros _ Hout Hp.
  - assert (Ht : timers s = [])
      by (destruct (timers s); [done|simpl in Hout; lia]).
    unfold poll_dispatch, bind, gets. simpl. rewrite Ht. simpl.
    split_and!; try done; by rewrite Ht.
  - rewrite response_unfold.
    assert (Hr : requests s = 0%nat) by lia. rewrite Hr. simpl.
    split_and!; try done; lia.
  - unfold poll_dispatch, poll_cleanup. destruct taskId as [tid|]; [|done].
    by destruct (String.eqb tid "").
Qed.

(** X12. A terminal snapshot ends the polling: when the first response
    already carries a terminal status there has been exactly one request
    and there will be no other, no timer is ever set, [isPolling] is
    false and the task data is that snapshot. *)
Theorem terminal_response_ends_polling tid d evs :
  String.eqb tid "" = false →
  keeps_polling (Normal d) = false →
  forallb (λ ev, negb (is_mount ev)) evs = true →
  let r := poll_run (Some tid) (Mounts :: Responds (Normal d) :: evs)
             poll_initial in
  fetches r.2 = [tid]
  ∧ poll_delays r.2 = []
  ∧ polledTask r.1 = Some d
  ∧ isPolling r.1 = false.
Proof.
  intros Htid Hterm Hevs r.
  assert (Hgen : ∀ s0, outstanding s0 = 0%nat → isPolling s0 = false →
            let r0 := poll_run (Some tid) evs s0 in
            polledTask r0.1 = polledTask s0
            ∧ isPolling r0.1 = false
            ∧ r0.2 = []).
  { clear r. induction evs as [|ev evs IH]; intros s0 Ho Hp; [done|].
    cbn [forallb] in Hevs. apply andb_true_iff in Hevs as [Hev Hevs].
    apply negb_true_iff in Hev.
    destruct (dispatch_idle (Some tid) ev s0 Hev Ho Hp)
      as (Ho1 & Hp1 & Hd1 & Hw1).
    rewrite poll_run_cons. cbn [fst snd].
    destruct (IH Hevs _ Ho1 Hp1) as (IHd & IHp & IHw).
    by rewrite Hw1, IHw, IHd, IHp, Hd1. }
  unfold r. rewrite poll_run_cons, (mount_unfold tid _ Htid).
  unfold state_of, calls_of. cbn [fst snd].
  set (s1 := set_requests _ _).
  assert (Hr1 : requests s1 = 1%nat) by done.
  rewrite poll_run_cons, response_unfold, Hr1, poll_resume_unfold.
  assert (Hc1 : cancelled (set_requests 0 s1) = false) by done.
  rewrite Hc1, Hterm. unfold state_of, calls_of. cbn [fst snd].
  set (s2 := setIsPolling false _).
  destruct (Hgen s2) as (Hd & Hp & Hw); [done|done|].
  rewrite Hw, Hd, Hp. done.
Qed.

(** One round of the loop: the response, then the timer it has set. *)
Lemma round_step tid o evs d p :
  keeps_polling o = true →
  poll_run (Some tid) (Responds o :: TimerFires :: evs)
    {| polledTask := d; isPolling := p; cancelled := false; timers := [];
       requests := 1 |}
  = let s' := {| polledTask := match o with
                               | Normal t => Some t
                               | Abrupt _ => d
                               end;
                 isPolling := p; cancelled := false; timers := [];
                 requests := 1 |} in
    ((poll_run (Some tid) evs s').1,
     (match o with
      | Normal _ => [SetTimeoutPoll 2000]
      | Abrupt e => [PollConsoleError e; SetTimeoutPoll 5000]
      end ++ [GetTaskStatus tid])
     ++ (poll_run (Some tid) evs s').2).
Proof.
  intros Ho. rewrite !poll_run_cons, response_unfold. cbn [requests].
  rewrite poll_resume_unfold. cbn [cancelled set_requests].
  destruct o as [t|e]; [rewrite Ho|]; unfold state_of, calls_of;
    cbn [fst snd]; rewrite timer_unfold; cbn; by rewrite <- ?app_assoc.
Qed.

(** Rounds that keep the loop going, from a state with one request in
    flight. *)
Lemma run_rounds tid outcomes s :
  forallb keeps_polling outcomes = true →
  cancelled s = false →
  timers s = [] →
  requests s = 1%nat →
  let r := poll_run (Some tid) (rounds outcomes) s in
  fetches r.2 = replicate (length outcomes) tid
  ∧ poll_delays r.2 = delay_after <$> outcomes
  ∧ polledTask r.1 = last_snapshot outcomes (polledTask s)
  ∧ isPolling r.1 = isPolling s
  ∧ cancelled r.1 = false
  ∧ timers r.1 = []
  ∧ requests r.1 = 1%nat.
Proof.
  revert s. induction outcomes as [|o os IH]; intros s Hos Hc Ht Hr; [done|].
  cbn [forallb] in Hos. apply andb_true_iff in Hos as [Ho Hos].
  destruct s as [d p c t n]. cbn in Hc, Ht, Hr. subst c t n.
  cbn [rounds]. rewrite (round_step tid o (rounds os) d p Ho).
  cbn [fst snd polledTask isPolling].
  set (s1 := {| polledTask := _ |}).
  destruct (IH s1 Hos) as (IHf & IHt & IHd & IHp & IHc & IHl & IHr);
    [done|done|done|].
  rewrite !fetches_app, !poll_delays_app, IHf, IHt, IHd, IHp, IHc, IHl, IHr.
  destruct o; done.
Qed.

(** X13. Polling never gives up: through any number of rounds in which
    the request fails or returns a snapshot that is not terminal, the
    next request is made 5000 ms after a failure and 2000 ms after a
    snapshot; [isPolling] stays true and the task data is the last
    snapshot received (a failure leaves it as it was). *)
Theorem polling_keeps_going tid outcomes :
  String.eqb tid "" = false →
  forallb keeps_polling outcomes = true →
  let r := poll_run (Some tid) (Mounts :: rounds outcomes) poll_initial in
  fetches r.2 = replicate (S (length outcomes)) tid
  ∧ poll_delays r.2 = delay_after <$> outcomes
  ∧ polledTask r.1 = last_snapshot outcomes None
  ∧ isPolling r.1 = true
  ∧ requests r.1 = 1%nat.
Proof.
  intros Htid Hos r. unfold r.
  rewrite poll_run_cons, (mount_unfold tid _ Htid).
  unfold state_of, calls_of. cbn [fst snd].
  set (s1 := set_requests _ _).
  destruct (run_rounds tid outcomes s1 Hos)
    as (Hf & Ht & Hd & Hp & _ & _ & Hr); [done|done|done|].
  rewrite fetches_app, poll_delays_app, Hf, Ht, Hd, Hp, Hr. done.
Qed.

(** X14. With a null or empty task id the effect only resets the task
    data: no request is ever made. *)
Theorem falsy_task_never_polls taskId evs s :
  TaskSocketTrace.falsy taskId = true →
  outstanding s = 0%nat →
  forallb (λ ev, negb (is_mount ev)) evs = true →
  let r := poll_run taskId (Mounts :: evs) s in
  r.2 = []
  ∧ polledTask r.1 = None
  ∧ isPolling r.1 = isPolling s.
Proof.
  intros Hfalsy Hout Hevs r.
  assert (Heff : poll_dispatch taskId Mounts s
                 = (setPolledTask None s, [], Normal ())).
  { unfold poll_dispatch, effect. destruct taskId as [tid|]; [|done].
    simpl in Hfalsy. by rewrite Hfalsy. }
  assert (Hclean : ∀ s0, poll_cleanup taskId s0 = (s0, [], Normal ())).
  { intros s0. unfold poll_cleanup. destruct taskId as [tid|]; [|done].
    simpl in Hfalsy. by rewrite Hfalsy. }
  assert (Hgen : ∀ s0, outstanding s0 = 0%nat →
            poll_run taskId evs s0 = (s0, [])).
  { clear r Heff. induction evs as [|ev evs IH]; intros s0 Ho; [done|].
    cbn [forallb] in Hevs. apply andb_true_iff in Hevs as [Hev Hevs].
    apply negb_true_iff in Hev. unfold outstanding in Ho.
    assert (Hstep : poll_dispatch taskId ev s0 = (s0, [], Normal ())).
    { destruct ev as [| |outcome|]; try discriminate.
      - assert (Ht : timers s0 = [])
          by (destruct (timers s0); [done|simpl in Ho; lia]).
        unfold poll_dispatch, bind, gets. simpl. by rewrite Ht.
      - rewrite response_unfold.
        assert (Hr : requests s0 = 0%nat) by lia. by rewrite Hr.
      - apply Hclean. }
    rewrite poll_run_cons, Hstep. cbn [state_of calls_of fst snd].
    by rewrite (IH Hevs s0 Ho). }
  unfold r. rewrite poll_run_cons, Heff. cbn [state_of calls_of fst snd].
  rewrite (Hgen (setPolledTask None s)); done.
Qed.

Lemma at_most_one_outstanding_witness :
  let evs := [Responds (Normal (TaskSocket.snapshot "running")); TimerFires;
              TimerFires; Responds (Abrupt (OtherValue "offline"));
              Responds (Abrupt (OtherValue "offline")); TimerFires] in
  (requests (poll_run (Some "t1") (Mounts :: evs) poll_initial).1 ≤ 1)%nat.
Proof.
  intros evs.
  exact (proj2 (at_most_one_outstanding (Some "t1") evs eq_refl)).
Defined.

Lemma cleanup_silences_polling_witness :
  let s := (poll_run (Some "t1") [Mounts] poll_initial).1 in
  let r := poll_run (Some "t1")
             [CleansUp; Responds (Normal (TaskSocket.snapshot "running"));
              TimerFires] s in
  polledTask r.1 = None ∧ fetches r.2 = [].
Proof.
  intros s r.
  destruct (cleanup_silences_polling "t1"
              [Responds (Normal (TaskSocket.snapshot "running")); TimerFires]
              s eq_refl eq_refl) as (Hd & _ & Hf & _).
  split; [exact Hd|exact Hf].
Defined.

Lemma terminal_response_ends_polling_witness :
  let r := poll_run (Some "t1")
             [Mounts; Responds (Normal (TaskSocket.snapshot "completed"));
              TimerFires; Responds (Normal (TaskSocket.snapshot "running"))]
             poll_initial in
  fetches r.2 = ["t1"] ∧ isPolling r.1 = false.
Proof.
  intros r.
  destruct (terminal_response_ends_polling "t1"
              (TaskSocket.snapshot "completed")
              [TimerFires; Responds (Normal (TaskSocket.snapshot "running"))]
              eq_refl eq_refl eq_refl) as (Hf & _ & _ & Hp).
  split; [exact Hf|exact Hp].
Defined.

Lemma polling_keeps_going_witness :
  let outcomes := [Abrupt (OtherValue "offline");
                   Normal (TaskSocket.snapshot "running");
                   Abrupt (OtherValue "offline")] in
  let r := poll_run (Some "t1") (Mounts :: rounds outcomes) poll_initial in
  poll_delays r.2 = [5000; 2000; 5000]
  ∧ polledTask r.1 = Some (TaskSocket.snapshot "running")
  ∧ isPolling r.1 = true.
Proof.
  intros outcomes r.
  destruct (polling_keeps_going "t1" outcomes eq_refl eq_refl)
    as (_ & Hd & Ht & Hp & _).
  split_and!; [exact Hd|exact Ht|exact Hp].
Defined.

Lemma falsy_task_never_polls_witness :
  (poll_run None [Mounts; TimerFires; CleansUp] poll_initial).2 = [].
Proof.
  exact (proj1 (falsy_task_never_polls None [TimerFires; CleansUp]
                  poll_initial eq_refl eq_refl eq_refl)).
Defined.

End TaskPollingProps.

(** ** Inference progress of a page tile *)

Module InferenceProgressProps.
Import Types RangeSelection RangeSelectionProps InferenceProgress.

Lemma includes_elem_of (l : list Z) (x : Z) : includes l x = true ↔ x ∈ l.
Proof. unfold includes. apply bool_decide_eq_true. Qed.

(** In a list without repetitions [indexOf] finds the position a value
    is read from. *)
Lemma indexOf_lookup (l : list Z) (k : nat) (x : Z) :
  NoDup l → l !! k = Some x → indexOf l x = Z.of_nat k.
Proof.
  intros Hnd Hk.
  assert (Hx : x ∈ l) by (apply list_elem_of_lookup; by exists k).
  destruct (indexOf_present l x Hx) as [Hr Hi].
  pose proof (NoDup_lookup l _ _ x Hnd Hi Hk). lia.
Qed.

(** X15. A tile has an inference state exactly when there is a task and
    the page is one of the pages under inference. *)
Theorem tile_progress_defined task inferencePageIds pageId :
  getTileInferenceProgress task inferencePageIds pageId = None
  ↔ task = None ∨ pageId ∉ inferencePageIds.
Proof.
  unfold getTileInferenceProgress. destruct task as [t|].
  - destruct (includes inferencePageIds pageId) eqn:Hin; cbn [negb].
    + apply includes_elem_of in Hin. split.
      * destruct (String.eqb (status t) "failed"); [done|].
        destruct (String.eqb (status t) "completed"); [done|].
        cbv zeta. destruct (match progress t with
                            | Some p => page_id p
                            | None => None
                            end) as [c|].
        -- destruct (c =? pageId); [done|].
           destruct (_ <? _); [done|]. by destruct (_ =? _).
        -- destruct (_ <? _); [done|]. by destruct (_ =? _).
      * intros [?|?]; done.
    + split; [|done]. intros _. right. intros Hx.
      apply includes_elem_of in Hx. congruence.
  - split; [by left|done].
Qed.

(** X16. Once the task is over every page under inference shows the
    task's outcome: [completed] at 100, or [failed] at 0, whatever the
    progress the task reports. *)
Theorem tile_progress_terminal t inferencePageIds pageId :
  pageId ∈ inferencePageIds →
  (status t = "completed" →
   getTileInferenceProgress (Some t) inferencePageIds pageId
   = Some {| tile_status := tile_completed; tile_progress := 100 |})
  ∧ (status t = "failed" →
     getTileInferenceProgress (Some t) inferencePageIds pageId
     = Some {| tile_status := tile_failed; tile_progress := 0 |}).
Proof.
  intros Hin. apply includes_elem_of in Hin.
  unfold getTileInferenceProgress. rewrite Hin. cbn [negb].
  split; intros ->; done.
Qed.

(** X17. While the task runs and reports the page at position [cur] of
    a list without repetitions as the current one, the page at position
    [k] shows [completed] when [k] is before [cur], [processing] when it
    is [cur], and [pending] when it is after. *)
Theorem tile_progress_by_position t p inferencePageIds (k cur : nat)
    pageId curId :
  NoDup inferencePageIds →
  inferencePageIds !! k = Some pageId →
  inferencePageIds !! cur = Some curId →
  String.eqb (status t) "failed" = false →
  String.eqb (status t) "completed" = false →
  progress t = Some p →
  current p = Some (Z.of_nat cur) →
  page_id p = Some curId →
  getTileInferenceProgress (Some t) inferencePageIds pageId
  = Some (if decide (k < cur)%nat
          then {| tile_status := tile_completed; tile_progress := 100 |}
          else if decide (k = cur)
          then {| tile_status := tile_processing; tile_progress := 50 |}
          else {| tile_status := tile_pending; tile_progress := 0 |}).
Proof.
  intros Hnd Hk Hcur Hf Hc Hp Hpc Hpp.
  assert (Hin : includes inferencePageIds pageId = true).
  { apply includes_elem_of, list_elem_of_lookup. by exists k. }
  unfold getTileInferenceProgress.
  rewrite Hin, Hf, Hc, Hp, Hpc, Hpp. cbn [negb Js.nullish].
  rewrite (indexOf_lookup _ _ _ Hnd Hk).
  destruct (Z.eqb_spec curId pageId) as [->|Hne].
  - assert (k = cur) by (by apply (NoDup_lookup inferencePageIds _ _ pageId)).
    subst k. rewrite decide_False by lia. by rewrite decide_True.
  - assert (k ≠ cur) by (intros ->; congruence).
    destruct (Z.ltb_spec (Z.of_nat k) (Z.of_nat cur)).
    + by rewrite decide_True by lia.
    + rewrite decide_False by lia.
      destruct (Z.eqb_spec (Z.of_nat k) (Z.of_nat cur)); [lia|].
      by rewrite decide_False.
Qed.

(** X18. The progress figure follows from the status: 0 for [pending]
    and [failed], 50 for [processing], 100 for [completed]. *)
Theorem tile_progress_figure task inferencePageIds pageId r :
  getTileInferenceProgress task inferencePageIds pageId = Some r →
  tile_progress r
  = match tile_status r with
    | tile_pending => 0
    | tile_processing => 50
    | tile_completed => 100
    | tile_failed => 0
    end.
Proof.
  unfold getTileInferenceProgress. destruct task as [t|]; [|done].
  destruct (negb _); [done|].
  destruct (String.eqb (status t) "failed"); [by intros [= <-]|].
  destruct (String.eqb (status t) "completed"); [by intros [= <-]|].
  cbv zeta.
  destruct (match match progress t with
                  | Some p => page_id p
                  | None => None
                  end with
            | Some c => c =? pageId
            | None => false
            end); [by intros [= <-]|].
  destruct (_ <? _); [by intros [= <-]|].
  destruct (_ =? _); by intros [= <-].
Qed.

Lemma tile_progress_defined_witness :
  getTileInferenceProgress (Some (running_at 0 None)) [11; 12; 13] 14 = None.
Proof.
  apply (proj2 (tile_progress_defined (Some (running_at 0 None))
                  [11; 12; 13] 14)).
  right. set_solver.
Defined.

Lemma tile_progress_terminal_witness :
  getTileInferenceProgress (Some (TaskSocket.snapshot "failed"))
    [11; 12; 13] 12
  = Some {| tile_status := tile_failed; tile_progress := 0 |}.
Proof.
  refine (proj2 (tile_progress_terminal (TaskSocket.snapshot "failed")
                   [11; 12; 13] 12 _) eq_refl).
  set_solver.
Defined.

Lemma tile_progress_by_position_witness :
  getTileInferenceProgress (Some (running_at 2 (Some 13))) [11; 12; 13] 12
  = Some {| tile_status := tile_completed; tile_progress := 100 |}.
Proof.
  refine (tile_progress_by_position (running_at 2 (Some 13)) _ [11; 12; 13]
            1 2 12 13 _ eq_refl eq_refl eq_refl eq_refl eq_refl eq_refl
            eq_refl).
  repeat (apply NoDup_cons; split; [set_solver|]). apply NoDup_nil_2.
Defined.

Lemma tile_progress_figure_witness :
  tile_progress {| tile_status := tile_processing; tile_progress := 50 |}
  = 50.
Proof.
  apply (tile_progress_figure (Some (running_at 0 (Some 11))) [11; 12; 13]
           11 {| tile_status := tile_processing; tile_progress := 50 |}).
  reflexivity.
Defined.

End InferenceProgressProps.

(** ** Auto-save: further properties *)

Module AutoSaveMore.
Import Js Types AutoSave AutoSaveSession AutoSaveProps.

Section Hook.
Variable options : UseAutoSaveOptions.

(** What the settling of a promise does, case by case. *)
Lemma settle_unfold req outcome s :
  handle options (Settle req outcome) s
  = match origin_of req (inflight s) with
    | Some who =>
        let s0 := set_inflight (forget req (inflight s)) (issued s) s in
        let reported :=
          match who with
          | FromDebounce => []
          | FromForceSave => [ForceSaveSettled req (Normal ())]
          end in
        match outcome with
        | Normal _ =>
            (setIsSaving false
               (setHasUnsavedChanges false
                  (setLastSaved (Some (clock s))
                     (set_localStorage
                        (delete (backupKey options) (localStorage s)) s0))),
             RemoveItem (backupKey options) :: reported, Normal ())
        | Abrupt e =>
            (setIsSaving false (setError (Some (failure_message e)) s0),
             ConsoleError e :: reported, Normal ())
        end
    | None => (s, [], Normal ())
    end.
Proof.
  cbn [handle]. unfold settle, bind, gets, modify.
  destruct (origin_of req (inflight s)) as [who|]; [|done].
  unfold forceSave_resume.
  destruct outcome as [[]|e], who;
    rewrite ?saveToServer_resume_resolved, ?saveToServer_resume_rejected;
    done.
Qed.

(** The only key of [localStorage] an event of the hook can change is
    the hook's own. *)
Lemma handle_other_keys ev s k :
  k ≠ backupKey options →
  localStorage (state_of (handle options ev s)) !! k = localStorage s !! k.
Proof.
  intros Hk. destruct ev as [p|p|dt|req outcome| |].
  - cbn [handle]. rewrite save_unfold. unfold state_of. cbn.
    by rewrite lookup_insert_ne.
  - done.
  - rewrite elapse_unfold. destruct (pending s) as [[a t]|]; [|done].
    by destruct (_ <=? _).
  - rewrite settle_unfold. destruct (origin_of req (inflight s)); [|done].
    destruct outcome as [[]|e]; [|done]. unfold state_of. cbn.
    by rewrite lookup_delete_ne.
  - unfold state_of. cbn. by rewrite lookup_delete_ne.
  - done.
Qed.

End Hook.

Lemma backupKey_inj o1 o2 : backupKey o1 = backupKey o2 → pageId o1 = pageId o2.
Proof.
  unfold backupKey. intros Heq.
  apply (inj (String.app "maatik_backup_")) in Heq.
  by apply (inj pretty) in Heq.
Qed.

(** X19. Backups of different pages do not interfere: whatever happens
    to the hook of one page, every other key of [localStorage], and so
    the backup of any other page, is left as it was. *)
Theorem other_pages_untouched o1 o2 evs s :
  pageId o1 ≠ pageId o2 →
  let r := run o1 evs s in
  getBackup o2 r.1 = getBackup o2 s
  ∧ (∀ k, k ≠ backupKey o1 → localStorage r.1 !! k = localStorage s !! k).
Proof.
  intros Hne r.
  assert (Hkeys : ∀ k, k ≠ backupKey o1 →
                       localStorage r.1 !! k = localStorage s !! k).
  { intros k Hk. unfold r. clear r. revert s.
    induction evs as [|ev evs IH]; intros s; [done|].
    rewrite autosave_run_cons. cbn [fst].
    by rewrite IH, handle_other_keys. }
  split; [|done]. unfold getBackup. rewrite Hkeys; [done|].
  intros Heq. by apply Hne, backupKey_inj.
Qed.

Section Hook2.
Variable options : UseAutoSaveOptions.



(** With no debounced call pending, time passing does nothing but move
    the clock. *)
Lemma run_elapse_idle evs s :
  pending s = None →
  forallb is_elapse evs = true →
  let r := run options evs s in
  r.2 = []
  ∧ pending r.1 = None
  ∧ localStorage r.1 = localStorage s
  ∧ hasUnsavedChanges r.1 = hasUnsavedChanges s.
Proof.
  revert s. induction evs as [|ev evs IH]; intros s Hp Hevs; [done|].
  cbn [forallb] in Hevs. apply andb_true_iff in Hevs as [Hev Hevs].
  destruct ev as [p|p|dt|req outcome| |]; try discriminate Hev.
  rewrite autosave_run_cons, elapse_unfold, Hp.
  unfold state_of, calls_of. cbn [fst snd].
  destruct (IH (set_clock (clock s + Z.of_N dt) s) Hp Hevs)
    as (IHw & IHp & IHl & IHu).
  by rewrite IHw, IHp, IHl, IHu.
Qed.

(** X21. Unmounting cancels the debounced write and keeps the backup:
    after the cleanup no amount of time makes a remote write, and
    [localStorage] and the unsaved flag are as they were. *)
Theorem unmount_cancels_write_keeps_backup evs s :
  forallb is_elapse evs = true →
  let r := run options (Unmount :: evs) s in
  remote_writes r.2 = []
  ∧ localStorage r.1 = localStorage s
  ∧ getBackup options r.1 = getBackup options s
  ∧ hasUnsavedChanges r.1 = hasUnsavedChanges s.
Proof.
  intros Hevs r. unfold r. rewrite autosave_run_cons. cbn [handle].
  unfold debouncedSave_cancel, bind, modify, emit, state_of, calls_of.
  cbn [fst snd].
  destruct (run_elapse_idle evs (set_pending None s) eq_refl Hevs)
    as (Hw & _ & Hl & Hu).
  unfold getBackup. rewrite Hw, Hl, Hu. done.
Qed.

(** X22. [forceSave] replaces the debounced write: after it only its
    own payload goes to the server, however long one waits, even when a
    [save] had a debounced write pending. *)
Theorem forceSave_supersedes_debounce P evs s :
  forallb is_elapse evs = true →
  remote_writes (run options (ForceSave P :: evs) s).2 = [P].
Proof.
  intros Hevs. rewrite autosave_run_cons. cbn [handle].
  rewrite forceSave_unfold. unfold state_of, calls_of. cbn [fst snd].
  set (s1 := set_inflight _ _ _).
  destruct (run_elapse_idle evs s1 eq_refl Hevs) as (Hw & _).
  by rewrite Hw.
Qed.

(** X23. A confirmation is not matched against the backup: when [save]
    is called again while a remote write is in flight, the confirmation
    of that write removes the backup of the newer payload and lowers the
    unsaved flag, although the newer payload has not been written; it is
    still held by the debounced function. *)
Theorem stale_confirmation_drops_newer_backup P1 P2 D s :
  fresh_ids s = true →
  wait options ≤ Z.of_N D →
  let r := run options
             [Save P1; Elapse D; Save P2; Settle (issued s) (Normal ())] s in
  remote_writes r.2 = [P1]
  ∧ getBackup options r.1 = None
  ∧ handleBeforeUnload r.1 = false
  ∧ pending r.1 = Some (P2, clock s + Z.of_N D).
Proof.
  intros Hfresh HD r. unfold r.
  rewrite autosave_run_cons. cbn [handle]. rewrite save_unfold.
  unfold state_of, calls_of. cbn [fst snd].
  rewrite autosave_run_cons, elapse_unfold.
  cbn [pending set_pending clock setHasUnsavedChanges set_localStorage].
  destruct (Z.leb_spec (clock s + wait options) (clock s + Z.of_N D)); [|lia].
  unfold state_of, calls_of. cbn [fst snd].
  rewrite autosave_run_cons. cbn [handle]. rewrite save_unfold.
  unfold state_of, calls_of. cbn [fst snd].
  rewrite autosave_run_cons, settle_unfold.
  cbn [inflight issued set_inflight setError setIsSaving set_pending
       set_clock setHasUnsavedChanges set_localStorage].
  rewrite (origin_of_fresh _ _ _ Hfresh).
  unfold state_of, calls_of, getBackup, handleBeforeUnload. cbn.
  rewrite lookup_delete_eq. done.
Qed.

(** Each event sends or holds only what was held before or is asked
    by the event itself, and no more of it. *)
Lemma handle_asked ev s :
  let r := handle options ev s in
  (∀ p, p ∈ remote_writes (calls_of r) ++ held (state_of r) →
        p ∈ held s ++ asked [ev])
  ∧ (length (remote_writes (calls_of r)) + length (held (state_of r))
     ≤ length (held s) + length (asked [ev]))%nat.
Proof.
  cbv zeta. unfold held.
  destruct ev as [q|q|dt|req outcome| |].
  - cbn [handle]. rewrite save_unfold. unfold state_of, calls_of. cbn.
    destruct (pending s) as [[a t]|]; (split; [set_solver|simpl; lia]).
  - cbn [handle]. rewrite forceSave_unfold. unfold state_of, calls_of. cbn.
    destruct (pending s) as [[a t]|]; (split; [set_solver|simpl; lia]).
  - rewrite elapse_unfold. destruct (pending s) as [[a t]|] eqn:Hp.
    + destruct (_ <=? _); unfold state_of, calls_of; cbn; rewrite ?Hp;
        (split; [set_solver|simpl; lia]).
    + unfold state_of, calls_of. cbn. rewrite Hp. done.
  - rewrite settle_unfold.
    destruct (origin_of req (inflight s)) as [who|];
      [|unfold state_of, calls_of; cbn;
        destruct (pending s) as [[a t]|]; (split; [set_solver|simpl; lia])].
    destruct outcome as [[]|e], who; unfold state_of, calls_of; cbn;
      destruct (pending s) as [[a t]|]; (split; [set_solver|simpl; lia]).
  - unfold state_of, calls_of. cbn.
    destruct (pending s) as [[a t]|]; (split; [set_solver|simpl; lia]).
  - unfold state_of, calls_of. cbn.
    destruct (pending s) as [[a t]|]; (split; [set_solver|simpl; lia]).
Qed.

(** X24. The hook writes only what it was asked to: with no debounced
    call pending at the start, every payload sent to the server was
    passed to [save] or [forceSave], and there are no more remote writes
    than such calls. *)
Theorem writes_only_what_was_asked evs s :
  pending s = None →
  let r := run options evs s in
  (∀ p, p ∈ remote_writes r.2 → p ∈ asked evs)
  ∧ (length (remote_writes r.2) ≤ length (asked evs))%nat.
Proof.
  intros Hp r.
  assert (Hgen : ∀ s0,
            (∀ p, p ∈ remote_writes (run options evs s0).2
                  → p ∈ held s0 ++ asked evs)
            ∧ (length (remote_writes (run options evs s0).2)
               ≤ length (held s0) + length (asked evs))%nat).
  { clear. induction evs as [|ev evs IH]; intros s0.
    - split; [|simpl; lia]. intros p Hin. by apply elem_of_nil in Hin.
    - rewrite autosave_run_cons. cbn [snd].
      destruct (handle_asked ev s0) as [Hin1 Hlen1].
      destruct (IH (state_of (handle options ev s0))) as [Hin2 Hlen2].
      assert (Hcons : asked (ev :: evs) = asked [ev] ++ asked evs)
        by apply (omap_app _ [ev] evs).
      rewrite Hcons, remote_writes_app, !length_app in *. split.
      + intros p Hin. apply elem_of_app in Hin as [Hin|Hin].
        * specialize (Hin1 p). rewrite !elem_of_app in *. tauto.
        * apply Hin2 in Hin. specialize (Hin1 p).
          rewrite !elem_of_app in *. tauto.
      + lia. }
  destruct (Hgen s) as [Hin Hlen]. unfold held in Hin, Hlen.
  rewrite Hp in Hin, Hlen. done.
Qed.

End Hook2.

Lemma other_pages_untouched_witness :
  let P := [line 1 "shalom"] in
  let Q := [line 1 "lehitraot"] in
  let s := (run page8 [Save Q] initial).1 in
  let r := run page7 [Save P; ForceSave P; Settle 0 (Normal ()); ClearBackup]
             s in
  lines <$> getBackup page8 r.1 = Some Q.
Proof.
  intros P Q s r.
  destruct (other_pages_untouched page7 page8
              [Save P; ForceSave P; Settle 0 (Normal ()); ClearBackup] s)
    as [Hb _].
  - vm_compute. discriminate.
  - fold r in Hb. rewrite Hb. vm_compute. reflexivity.
Defined.


Lemma unmount_cancels_write_keeps_backup_witness :
  let P := [line 1 "shalom"] in
  let s := (run page7 [Save P] initial).1 in
  let r := run page7 [Unmount; Elapse 3000; Elapse 3000] s in
  remote_writes r.2 = []
  ∧ lines <$> getBackup page7 r.1 = Some P.
Proof.
  intros P s r.
  destruct (unmount_cancels_write_keeps_backup page7
              [Elapse 3000; Elapse 3000] s eq_refl) as (Hw & _ & Hb & _).
  split; [exact Hw|]. fold r in Hb. rewrite Hb. vm_compute. reflexivity.
Defined.

Lemma forceSave_supersedes_debounce_witness :
  let P1 := [line 1 "a"] in
  let P2 := [line 1 "ab"] in
  let s := (run page7 [Save P1] initial).1 in
  remote_writes (run page7 [ForceSave P2; Elapse 3000; Elapse 3000] s).2
  = [P2].
Proof.
  intros P1 P2 s.
  exact (forceSave_supersedes_debounce page7 P2 [Elapse 3000; Elapse 3000] s
           eq_refl).
Defined.

Lemma stale_confirmation_drops_newer_backup_witness :
  let P1 := [line 1 "a"] in
  let P2 := [line 1 "ab"] in
  let r := run page7 [Save P1; Elapse 3000; Save P2; Settle 0 (Normal ())]
             initial in
  getBackup page7 r.1 = None ∧ pending r.1 = Some (P2, 3000).
Proof.
  intros P1 P2 r.
  destruct (stale_confirmation_drops_newer_backup page7 P1 P2 3000%N initial
              eq_refl) as (_ & Hb & _ & Hp).
  - vm_compute. discriminate.
  - split; [exact Hb|exact Hp].
Defined.

Lemma writes_only_what_was_asked_witness :
  let P1 := [line 1 "a"] in
  let P2 := [line 1 "ab"] in
  let evs := [Save P1; Elapse 100; Save P2; Elapse 3000; Elapse 3000] in
  (length (remote_writes (run page7 evs initial).2) ≤ 2)%nat.
Proof.
  intros P1 P2 evs.
  exact (proj2 (writes_only_what_was_asked page7 evs initial eq_refl)).
Defined.

End AutoSaveMore.

(** ** The editor page and its backup *)

Module EditorPageProps.
Import Js Types AutoSave AutoSaveSession AutoSaveProps EditorPage.

Section Page.
Variable options : UseAutoSaveOptions.

(** X25. A backup is offered after a reload. When [save P] is followed
    by a reload of the page, the mount effect of the editor asks the
    user once, showing the time of the backup; on yes the editor's lines
    become [P] and the backup is kept; on no the lines stay and the
    backup is removed. With no backup the user is not asked. *)
Theorem backup_offered_after_reload P s answer e :
  autosave e = reload (state_of (save options P s)) →
  let r := checkBackup options answer e in
  (if answer
   then calls_of r = [WindowConfirm (clock s);
                      Announce "Restored from backup"]
        ∧ editor_lines (state_of r) = P
        ∧ lines <$> getBackup options (autosave (state_of r)) = Some P
   else calls_of r = [WindowConfirm (clock s);
                      Hook (RemoveItem (backupKey options))]
        ∧ editor_lines (state_of r) = editor_lines e
        ∧ getBackup options (autosave (state_of r)) = None)
  ∧ (∀ e', getBackup options (autosave e') = None →
           checkBackup options answer e' = (e', [], Normal ())).
Proof.
  intros He r. split.
  - assert (Hb : getBackup options (autosave e)
                 = Some {| lines := P; timestamp := clock s |}).
    { rewrite He, save_unfold. unfold state_of, reload, getBackup. cbn.
      by rewrite lookup_insert_eq. }
    unfold r, checkBackup, bind, gets. cbn. rewrite Hb.
    destruct answer.
    + unfold state_of, calls_of. cbn. by rewrite Hb.
    + unfold hook, clearBackup, localStorage_removeItem, bind, gets, modify,
        emit, state_of, calls_of, getBackup. cbn.
      by rewrite lookup_delete_eq.
  - intros e' Hnone. unfold checkBackup, bind, gets. cbn. by rewrite Hnone.
Qed.

(** X26. Edits are saved in the manual view only: there a change of the
    lines is backed up at once, raises the unsaved flag and arms the
    debounced write; in the model view it changes the editor's lines and
    nothing else. *)
Theorem edits_saved_in_manual_view_only newLines e :
  let r := handleLinesChange options newLines e in
  editor_lines (state_of r) = newLines
  ∧ (viewMode e = manual →
     lines <$> getBackup options (autosave (state_of r)) = Some newLines
     ∧ hasUnsavedChanges (autosave (state_of r)) = true
     ∧ pending (autosave (state_of r))
       = Some (newLines, clock (autosave e)))
  ∧ (viewMode e = model →
     autosave (state_of r) = autosave e ∧ calls_of r = []).
Proof.
  intros r. unfold r, handleLinesChange, bind, gets, modify. cbn.
  destruct (viewMode e) eqn:Hv.
  - unfold hook. cbn [autosave setLines]. rewrite save_unfold.
    unfold state_of, calls_of, getBackup. cbn.
    rewrite lookup_insert_eq. split_and!; done.
  - unfold state_of, calls_of. cbn. split_and!; done.
Qed.

End Page.

Lemma backup_offered_after_reload_witness :
  let P := [line 1 "shalom"] in
  let e := {| editor_lines := []; viewMode := manual;
              autosave := reload (state_of (save page7 P initial)) |} in
  editor_lines (state_of (checkBackup page7 true e)) = P.
Proof.
  intros P e.
  destruct (proj1 (backup_offered_after_reload page7 P initial true e
                     eq_refl)) as (_ & Hl & _).
  exact Hl.
Defined.

Lemma edits_saved_in_manual_view_only_witness :
  let P := [line 1 "shalom"] in
  let e := {| editor_lines := []; viewMode := model; autosave := initial |} in
  calls_of (handleLinesChange page7 P e) = [].
Proof.
  intros P e.
  destruct (edits_saved_in_manual_view_only page7 P e) as (_ & _ & Hm).
  exact (proj2 (Hm eq_refl)).
Defined.

End EditorPageProps.

(** ** Keyboard shortcuts *)

Module KeyboardShortcutsProps.
Import Js Types AutoSave AutoSaveProps EditorPage KeyboardShortcuts.

(** The name of a key press: the modifiers held, in the order Ctrl, Alt,
    Shift, then the key, joined by [+]. *)
Lemma key_name_spelled e :
  key e ≠ "" →
  key_name e
  = (if ctrl e then "Ctrl+" else "")
    +:+ (if alt e then "Alt+" else "")
    +:+ (if shift e then "Shift+" else "")
    +:+ key e.
Proof.
  intros Hk. unfold key_name.
  destruct (String.eqb_spec (key e) ""); [done|].
  destruct (ctrl e), (alt e), (shift e); done.
Qed.

(** X27. While the focus is in an input or a textarea, a key press runs
    a shortcut only when the key is Escape or it is [s] with Ctrl held;
    every other shortcut is held back, whatever shortcuts there are. *)
Theorem text_fields_hold_shortcuts_back {A} (shortcuts : gmap string A)
    enabled e cb :
  in_text_field e = true →
  keydown shortcuts enabled e = Some cb →
  key e = "Escape" ∨ (ctrl e = true ∧ key e = "s").
Proof.
  intros Hin. unfold keydown, held_back. rewrite Hin.
  destruct enabled; [|done].
  destruct (String.eqb_spec (key e) "Escape") as [?|_]; [by left|].
  destruct (ctrl e); [|done].
  destruct (String.eqb_spec (key e) "s") as [?|_]; [by right|done].
Qed.

(** X28. Ctrl+S saves at once, also while typing: in the editor, with or
    without the focus in a text field, the key [s] with Ctrl alone runs
    [forceSave] on the editor's lines, which cancels the debounced write
    and sends the lines to the server. *)
Theorem ctrl_s_saves_at_once e ed :
  ctrl e = true → alt e = false → shift e = false → key e = "s" →
  keydown editor_shortcuts true e = Some SaveNow
  ∧ calls_of (save_now ed)
    = [Hook DebounceCancel;
       Hook (OnSave (issued (autosave ed)) (editor_lines ed))]
  ∧ pending (autosave (state_of (save_now ed))) = None.
Proof.
  intros Hc Ha Hs Hk. split.
  - unfold keydown, held_back, key_name. rewrite Hc, Ha, Hs, Hk.
    by destruct (in_text_field e).
  - unfold save_now, hook, bind, gets. cbn [fst snd].
    rewrite forceSave_unfold. done.
Qed.

Lemma text_fields_hold_shortcuts_back_witness :
  let e := {| ctrl := false; alt := false; shift := false; key := "Escape";
              in_text_field := true |} in
  key e = "Escape" ∨ (ctrl e = true ∧ key e = "s").
Proof.
  intros e.
  exact (text_fields_hold_shortcuts_back editor_shortcuts true e LeavePage
           eq_refl eq_refl).
Defined.

Lemma ctrl_s_saves_at_once_witness :
  let e := {| ctrl := true; alt := false; shift := false; key := "s";
              in_text_field := true |} in
  keydown editor_shortcuts true e = Some SaveNow.
Proof.
  intros e.
  exact (proj1 (ctrl_s_saves_at_once e
                  {| editor_lines := []; viewMode := manual;
                     autosave := initial |}
                  eq_refl eq_refl eq_refl eq_refl)).
Defined.

(** In the editor's textarea Ctrl+M does not switch the view. *)
Example ctrl_m_held_back_in_textarea :
  keydown editor_shortcuts true
    {| ctrl := true; alt := false; shift := false; key := "m";
       in_text_field := true |} = None
  ∧ keydown editor_shortcuts true
      {| ctrl := true; alt := false; shift := false; key := "m";
         in_text_field := false |} = Some ToggleViewMode.
Proof. split; reflexivity. Qed.

End KeyboardShortcutsProps.
